(** * ms3d: a shallow embedding of the ms3d model decoder

    The development follows the crate's three pieces:
    - [read.rs]: the byte source, a trait [Read] with the streaming
      backend [IoReader] and the in-memory backend [SliceReader];
    - [de.rs]: the packed on-disk records, read by [ptr::read_unaligned],
      embedded here as little-endian field-by-field decoders;
    - [lib.rs] / [model.rs]: the [Reader] that decodes a [Model].

    Integers are [Z] with their width written out; an [f32] is embedded
    as its 32-bit pattern (the decoder only copies the bits);
    byte buffers are [list byte]; a Rust [String] (and a [PathBuf]) is the
    list of its UTF-8 bytes; [usize] is 64 bits wide. *)

From Stdlib Require Import String ZArith List Lia Bool.
From Stdlib Require Import Strings.Byte.
Import ListNotations.
Open Scope Z_scope.

(** ** Machine integers and bytes *)

Definition u8 := Z.
Definition i8 := Z.
Definition u16 := Z.
Definition i32 := Z.
Definition u32 := Z.
Definition usize := Z.
(** An [f32] as the bit pattern the decoder copies. *)
Definition f32 := Z.

Definition isize_MAX : Z := 2 ^ 63 - 1.

Definition byte_val (b : byte) : Z := Z.of_N (Byte.to_N b).

Definition byte_of_Z (z : Z) : byte :=
  match Byte.of_N (Z.to_N (z mod 256)) with
  | Some b => b
  | None => x00
  end.

(** Little-endian value of a run of bytes (the target is little-endian). *)
Fixpoint le (bs : list byte) : Z :=
  match bs with
  | [] => 0
  | b :: bs => byte_val b + 256 * le bs
  end.

(** The [n] little-endian bytes of [z] (two's complement for negative [z]). *)
Fixpoint le_bytes (n : nat) (z : Z) : list byte :=
  match n with
  | O => []
  | S n => byte_of_Z z :: le_bytes n (z / 256)
  end.

(** Reading a [w]-bit two's-complement integer from its unsigned bits. *)
Definition signed (w : Z) (u : Z) : Z :=
  if u <? 2 ^ (w - 1) then u else u - 2 ^ w.

(** [x as usize] for an [i32] [x] (sign extension to 64 bits). *)
Definition usize_of_i32 (x : i32) : usize := x mod 2 ^ 64.

(** A cursor over the bytes of one packed record: take the next [n] bytes. *)
Definition take (n : nat) (b : list byte) : list byte * list byte :=
  (firstn n b, skipn n b).

Definition take_u (n : nat) (b : list byte) : Z * list byte :=
  (le (firstn n b), skipn n b).

Definition take_s (n : nat) (b : list byte) : Z * list byte :=
  (signed (8 * Z.of_nat n) (le (firstn n b)), skipn n b).

Abbreviation take_u8 := (take_u 1).
Abbreviation take_i8 := (take_s 1).
Abbreviation take_u16 := (take_u 2).
Abbreviation take_u32 := (take_u 4).
Abbreviation take_i32 := (take_s 4).
Abbreviation take_f32 := (take_u 4).

Definition take_f32x3 (b : list byte) : (f32 * f32 * f32) * list byte :=
  let (x, b) := take_f32 b in
  let (y, b) := take_f32 b in
  let (z, b) := take_f32 b in
  ((x, y, z), b).

Definition take_f32x4 (b : list byte) : (f32 * f32 * f32 * f32) * list byte :=
  let (x, b) := take_f32 b in
  let (y, b) := take_f32 b in
  let (z, b) := take_f32 b in
  let (w, b) := take_f32 b in
  ((x, y, z, w), b).

Definition enc_u (n : nat) (z : Z) : list byte := le_bytes n z.

Definition enc_f32x3 (v : f32 * f32 * f32) : list byte :=
  let '(x, y, z) := v in enc_u 4 x ++ enc_u 4 y ++ enc_u 4 z.

Definition enc_f32x4 (v : f32 * f32 * f32 * f32) : list byte :=
  let '(x, y, z, w) := v in enc_u 4 x ++ enc_u 4 y ++ enc_u 4 z ++ enc_u 4 w.

(** ** UTF-8 validation, as [str::from_utf8] performs it
    (Unicode Table 3-7: no overlong forms, no surrogates, at most U+10FFFF). *)

Definition in_range (lo hi : Z) (b : byte) : bool :=
  (lo <=? byte_val b) && (byte_val b <=? hi).

Definition cont (b : byte) : bool := in_range 128 191 b.

Fixpoint utf8_valid_fuel (fuel : nat) (bs : list byte) : bool :=
  match fuel with
  | O => match bs with [] => true | _ => false end
  | S fuel =>
    match bs with
    | [] => true
    | b0 :: rest =>
      let v := byte_val b0 in
      if v <? 128 then utf8_valid_fuel fuel rest
      else if (194 <=? v) && (v <=? 223) then
        match rest with
        | b1 :: rest => cont b1 && utf8_valid_fuel fuel rest
        | _ => false
        end
      else if (224 <=? v) && (v <=? 239) then
        match rest with
        | b1 :: b2 :: rest =>
          (if v =? 224 then in_range 160 191 b1
           else if v =? 237 then in_range 128 159 b1
           else cont b1) && cont b2 && utf8_valid_fuel fuel rest
        | _ => false
        end
      else if (240 <=? v) && (v <=? 244) then
        match rest with
        | b1 :: b2 :: b3 :: rest =>
          (if v =? 240 then in_range 144 191 b1
           else if v =? 244 then in_range 128 143 b1
           else cont b1) && cont b2 && cont b3 && utf8_valid_fuel fuel rest
        | _ => false
        end
      else false
    end
  end.

Definition utf8_valid (bs : list byte) : bool := utf8_valid_fuel (length bs) bs.

(** ** Errors and the decoding monad *)

Inductive ErrorKind := UnexpectedEof.

(** [failure::Error] as the decoder produces it: an I/O error, a format
    violation raised by [ensure!]/[bail!]/[format_err!] (its static message),
    or a UTF-8 error. *)
Inductive Error :=
| Io (k : ErrorKind)
| Invalid (msg : string)
| Utf8.

(** The result of running a decoder step on a reader state [S]: a value and
    the new state, an [Err], or a panic (the step unwinds). *)
Inductive outcome (S A : Type) :=
| Ok (x : A) (s : S)
| Err (e : Error)
| Panic (msg : string).
Arguments Ok {S A}.
Arguments Err {S A}.
Arguments Panic {S A}.

Definition M (S A : Type) := S -> outcome S A.

Definition ret {S A} (x : A) : M S A := fun s => Ok x s.
Definition fail {S A} (e : Error) : M S A := fun _ => Err e.
Definition bind {S A B} (m : M S A) (k : A -> M S B) : M S B :=
  fun s => match m s with
           | Ok x s' => k x s'
           | Err e => Err e
           | Panic p => Panic p
           end.

Notation "x <- m ;; k" := (bind m (fun x => k))
  (at level 61, m at next level, right associativity).

(** [ensure!(c, msg)] *)
Definition ensure {S} (c : bool) (msg : string) : M S unit :=
  if c then ret tt else fail (Invalid msg).

(** [r?] on a plain [Result]. *)
Definition lift {S A} (r : A + Error) : M S A :=
  match r with inl x => ret x | inr e => fail e end.

(** ** read.rs: the byte source *)

Inductive io_result (A : Type) := IoOk (x : A) | IoErr (k : ErrorKind).
Arguments IoOk {A}.
Arguments IoErr {A}.

(** A call of [read(&mut self, len)]: it returns its [io::Result] together
    with the updated [self], or it panics. *)
Inductive call (S : Type) :=
| Returned (r : io_result (list byte)) (self : S)
| Panicked (msg : string).
Arguments Returned {S}.
Arguments Panicked {S}.

(** [pub(crate) trait Read { fn read(&mut self, len: usize) -> io::Result<&[u8]>; }]
    ([lib.rs] calls the same capability [buf_read_exact]). *)
Class Read (S : Type) := read : usize -> S -> call S.

Module SliceReader.
Record SliceReader := new { slice : list byte }.

(** [SliceReader::read]. *)
Definition read (len : usize) (self : SliceReader) : call SliceReader :=
  if len >? Z.of_nat (length (slice self)) then
    Returned (IoErr UnexpectedEof) self
  else
    let head := firstn (Z.to_nat len) (slice self) in
    let tail := skipn (Z.to_nat len) (slice self) in
    Returned (IoOk head) {| slice := tail |}.
End SliceReader.

Module IoReader.
(** The wrapped [io::Read] is a stream of bytes, [rdr]; [buf] is kept as
    its capacity only: [buf.len()] stays [0], and every read overwrites
    the [len] bytes it returns. *)
Record IoReader := mk { rdr : list byte; buf_capacity : usize }.

Definition new (rdr : list byte) : IoReader := mk rdr 0.

(** [Vec::<u8>::reserve(len)] on a vector of length [0]: grow to
    [max(2 * cap, len, 8)] when [len] exceeds the capacity, panicking with
    "capacity overflow" above [isize::MAX] bytes. *)
Definition reserve (cap len : usize) : option usize :=
  if len <=? cap then Some cap
  else
    let new_cap := Z.max (Z.max (2 * cap) len) 8 in
    if new_cap >? isize_MAX then None else Some new_cap.

(** [read_exact] into the reserved slice: the next [len] bytes of the
    stream, or [UnexpectedEof] once the stream ends (having drained it). *)
Definition read_exact (len : usize) (rdr : list byte)
  : io_result (list byte) * list byte :=
  if len >? Z.of_nat (length rdr) then (IoErr UnexpectedEof, [])
  else (IoOk (firstn (Z.to_nat len) rdr), skipn (Z.to_nat len) rdr).

(** [IoReader::read]. *)
Definition read (len : usize) (self : IoReader) : call IoReader :=
  match reserve (buf_capacity self) len with
  | None => Panicked "capacity overflow"
  | Some cap =>
    let (r, rest) := read_exact len (rdr self) in
    Returned r (mk rest cap)
  end.
End IoReader.

#[export] Instance SliceReader_Read : Read SliceReader.SliceReader := SliceReader.read.
#[export] Instance IoReader_Read : Read IoReader.IoReader := IoReader.read.

(** ** de.rs: the packed on-disk records

    Each record has its [size_of] and its [ptr::read_unaligned] from exactly
    that many bytes, read field by field in declaration order. *)

Module De.

Module Header.
Record t := mk { id : list byte; version : i32 }.
Definition size : nat := 14.
Definition of_bytes (b : list byte) : t :=
  let (id, b) := take 10 b in
  let (version, _) := take_i32 b in
  mk id version.
End Header.

Module Vertex.
Record t := mk { flags : u8; vertex : f32 * f32 * f32; bone_id : i8;
                 reference_count : u8 }.
Definition size : nat := 15.
Definition of_bytes (b : list byte) : t :=
  let (flags, b) := take_u8 b in
  let (vertex, b) := take_f32x3 b in
  let (bone_id, b) := take_i8 b in
  let (reference_count, _) := take_u8 b in
  mk flags vertex bone_id reference_count.
End Vertex.

Module Triangle.
Record t := mk { flags : u16; vertex_indices : u16 * u16 * u16;
                 vertex_normals : (f32 * f32 * f32) * (f32 * f32 * f32) * (f32 * f32 * f32);
                 s : f32 * f32 * f32; t_ : f32 * f32 * f32;
                 smoothing_group : u8; group_index : u8 }.
Definition size : nat := 70.
Definition of_bytes (b : list byte) : t :=
  let (flags, b) := take_u16 b in
  let (i0, b) := take_u16 b in
  let (i1, b) := take_u16 b in
  let (i2, b) := take_u16 b in
  let (n0, b) := take_f32x3 b in
  let (n1, b) := take_f32x3 b in
  let (n2, b) := take_f32x3 b in
  let (s, b) := take_f32x3 b in
  let (t_, b) := take_f32x3 b in
  let (smoothing_group, b) := take_u8 b in
  let (group_index, _) := take_u8 b in
  mk flags (i0, i1, i2) (n0, n1, n2) s t_ smoothing_group group_index.
End Triangle.

Module GroupPrefix.
Record t := mk { flags : u8; name : list byte; num_triangles : u16 }.
Definition size : nat := 35.
Definition of_bytes (b : list byte) : t :=
  let (flags, b) := take_u8 b in
  let (name, b) := take 32 b in
  let (num_triangles, _) := take_u16 b in
  mk flags name num_triangles.
End GroupPrefix.

Module GroupSuffix.
Record t := mk { material_index : i8 }.
Definition size : nat := 1.
Definition of_bytes (b : list byte) : t :=
  let (material_index, _) := take_i8 b in mk material_index.
End GroupSuffix.

Module Material.
Record t := mk { name : list byte; ambient : f32 * f32 * f32 * f32;
                 diffuse : f32 * f32 * f32 * f32; specular : f32 * f32 * f32 * f32;
                 emissive : f32 * f32 * f32 * f32; shininess : f32;
                 transparency : f32; mode : u8; texture : list byte;
                 alphamap : list byte }.
Definition size : nat := 361.
Definition of_bytes (b : list byte) : t :=
  let (name, b) := take 32 b in
  let (ambient, b) := take_f32x4 b in
  let (diffuse, b) := take_f32x4 b in
  let (specular, b) := take_f32x4 b in
  let (emissive, b) := take_f32x4 b in
  let (shininess, b) := take_f32 b in
  let (transparency, b) := take_f32 b in
  let (mode, b) := take_u8 b in
  let (texture, b) := take 128 b in
  let (alphamap, _) := take 128 b in
  mk name ambient diffuse specular emissive shininess transparency mode
     texture alphamap.
End Material.

Module KeyFrameData.
Record t := mk { animation_fps : f32; current_time : f32; total_frames : i32 }.
Definition size : nat := 12.
Definition of_bytes (b : list byte) : t :=
  let (animation_fps, b) := take_f32 b in
  let (current_time, b) := take_f32 b in
  let (total_frames, _) := take_i32 b in
  mk animation_fps current_time total_frames.
End KeyFrameData.

Module KeyFrameRot.
Record t := mk { time : f32; rotation : f32 * f32 * f32 }.
Definition size : nat := 16.
Definition of_bytes (b : list byte) : t :=
  let (time, b) := take_f32 b in
  let (rotation, _) := take_f32x3 b in
  mk time rotation.
End KeyFrameRot.

Module KeyFramePos.
Record t := mk { time : f32; position : f32 * f32 * f32 }.
Definition size : nat := 16.
Definition of_bytes (b : list byte) : t :=
  let (time, b) := take_f32 b in
  let (position, _) := take_f32x3 b in
  mk time position.
End KeyFramePos.

Module JointPrefix.
Record t := mk { flags : u8; name : list byte; parent_name : list byte;
                 rotation : f32 * f32 * f32; position : f32 * f32 * f32;
                 num_key_frames_rot : u16; num_key_frames_trans : u16 }.
Definition size : nat := 93.
Definition of_bytes (b : list byte) : t :=
  let (flags, b) := take_u8 b in
  let (name, b) := take 32 b in
  let (parent_name, b) := take 32 b in
  let (rotation, b) := take_f32x3 b in
  let (position, b) := take_f32x3 b in
  let (num_key_frames_rot, b) := take_u16 b in
  let (num_key_frames_trans, _) := take_u16 b in
  mk flags name parent_name rotation position num_key_frames_rot
     num_key_frames_trans.
End JointPrefix.

Module CommentPrefix.
Record t := mk { index : i32; comment_length : i32 }.
Definition size : nat := 8.
Definition of_bytes (b : list byte) : t :=
  let (index, b) := take_i32 b in
  let (comment_length, _) := take_i32 b in
  mk index comment_length.
End CommentPrefix.

Module VertexEx1.
Record t := mk { bone_ids : i8 * i8 * i8; weights : u8 * u8 * u8 }.
Definition size : nat := 6.
Definition of_bytes (b : list byte) : t :=
  let (b0, b) := take_i8 b in
  let (b1, b) := take_i8 b in
  let (b2, b) := take_i8 b in
  let (w0, b) := take_u8 b in
  let (w1, b) := take_u8 b in
  let (w2, _) := take_u8 b in
  mk (b0, b1, b2) (w0, w1, w2).
End VertexEx1.

Module VertexEx2.
Record t := mk { bone_ids : i8 * i8 * i8; weights : u8 * u8 * u8; extra : u32 }.
Definition size : nat := 10.
Definition of_bytes (b : list byte) : t :=
  let (b0, b) := take_i8 b in
  let (b1, b) := take_i8 b in
  let (b2, b) := take_i8 b in
  let (w0, b) := take_u8 b in
  let (w1, b) := take_u8 b in
  let (w2, b) := take_u8 b in
  let (extra, _) := take_u32 b in
  mk (b0, b1, b2) (w0, w1, w2) extra.
End VertexEx2.

Module VertexEx3.
Record t := mk { bone_ids : i8 * i8 * i8; weights : u8 * u8 * u8; extra : u32 * u32 }.
Definition size : nat := 14.
Definition of_bytes (b : list byte) : t :=
  let (b0, b) := take_i8 b in
  let (b1, b) := take_i8 b in
  let (b2, b) := take_i8 b in
  let (w0, b) := take_u8 b in
  let (w1, b) := take_u8 b in
  let (w2, b) := take_u8 b in
  let (e0, b) := take_u32 b in
  let (e1, _) := take_u32 b in
  mk (b0, b1, b2) (w0, w1, w2) (e0, e1).
End VertexEx3.

Module JointEx.
Record t := mk { color : f32 * f32 * f32 }.
Definition size : nat := 12.
Definition of_bytes (b : list byte) : t :=
  let (color, _) := take_f32x3 b in mk color.
End JointEx.

Module ModelEx.
Record t := mk { joint_size : f32; transparency_mode : i32; alpha_ref : f32 }.
Definition size : nat := 12.
Definition of_bytes (b : list byte) : t :=
  let (joint_size, b) := take_f32 b in
  let (transparency_mode, b) := take_i32 b in
  let (alpha_ref, _) := take_f32 b in
  mk joint_size transparency_mode alpha_ref.
End ModelEx.

(** Primitive values read with [read_type]. *)
Definition u16_of_bytes (b : list byte) : u16 := fst (take_u16 b).
Definition u32_of_bytes (b : list byte) : u32 := fst (take_u32 b).
Definition i32_of_bytes (b : list byte) : i32 := fst (take_i32 b).

End De.

(** ** model.rs: the public model tree *)

(** [bitflags! { pub struct Flags: u8 { ... } }] *)
Record Flags := mkFlags { bits : u8 }.

Module Flags.
Definition SELECTED : Flags := mkFlags 1.
Definition HIDDEN : Flags := mkFlags 2.
Definition SELECTED2 : Flags := mkFlags 4.
Definition DIRTY : Flags := mkFlags 8.
Definition all : Flags := mkFlags 15.

(** [Flags::from_bits]: [Some] exactly when no bit outside [all] is set
    ([!all] taken in [u8]). *)
Definition from_bits (b : u8) : option Flags :=
  if Z.land b (Z.lxor (bits all) 255) =? 0 then Some (mkFlags b) else None.

(** [self.contains(other)] *)
Definition contains (self other : Flags) : bool :=
  Z.land (bits self) (bits other) =? bits other.
End Flags.

Module Header.
Record t := mk { version : i32 }.
End Header.

Module Vertex.
Record t := mk { flags : Flags; vertex : f32 * f32 * f32; bone_id : i8;
                 reference_count : u8 }.
Definition ALLOWED_FLAGS : Flags :=
  mkFlags (Z.lor (Z.lor (bits Flags.SELECTED) (bits Flags.SELECTED2)) (bits Flags.HIDDEN)).
End Vertex.

Module Triangle.
Record t := mk { flags : Flags; vertex_indices : u16 * u16 * u16;
                 vertex_normals : (f32 * f32 * f32) * (f32 * f32 * f32) * (f32 * f32 * f32);
                 s : f32 * f32 * f32; t_ : f32 * f32 * f32;
                 smoothing_group : u8; group_index : u8 }.
Definition ALLOWED_FLAGS : Flags :=
  mkFlags (Z.lor (Z.lor (bits Flags.SELECTED) (bits Flags.SELECTED2)) (bits Flags.HIDDEN)).
End Triangle.

Module Group.
Record t := mk { flags : Flags; name : list byte; triangle_indices : list u16;
                 material_index : i8 }.
Definition ALLOWED_FLAGS : Flags :=
  mkFlags (Z.lor (bits Flags.SELECTED) (bits Flags.HIDDEN)).
End Group.

Module Material.
Record t := mk { name : list byte; ambient : f32 * f32 * f32 * f32;
                 diffuse : f32 * f32 * f32 * f32; specular : f32 * f32 * f32 * f32;
                 emissive : f32 * f32 * f32 * f32; shininess : f32;
                 transparency : f32; mode : u8; texture : list byte;
                 alphamap : list byte }.
End Material.

Module KeyFrameData.
Record t := mk { animation_fps : f32; current_time : f32; total_frames : i32 }.
End KeyFrameData.

Module KeyFrameRot.
Record t := mk { time : f32; rotation : f32 * f32 * f32 }.
End KeyFrameRot.

Module KeyFramePos.
Record t := mk { time : f32; position : f32 * f32 * f32 }.
End KeyFramePos.

Module Joint.
Record t := mk { flags : Flags; name : list byte; parent_name : list byte;
                 rotation : f32 * f32 * f32; position : f32 * f32 * f32;
                 key_frames_rot : list KeyFrameRot.t;
                 key_frames_trans : list KeyFramePos.t }.
Definition ALLOWED_FLAGS : Flags :=
  mkFlags (Z.lor (bits Flags.SELECTED) (bits Flags.DIRTY)).
End Joint.

Module Comment.
Record t := mk { index : i32; comment : list byte }.
End Comment.

Module Comments.
Record t := mk { sub_version : i32; group_comments : list Comment.t;
                 material_comments : list Comment.t;
                 joint_comments : list Comment.t;
                 model_comment : option Comment.t }.
End Comments.

Module VertexEx1.
Record t := mk { bone_ids : i8 * i8 * i8; weights : u8 * u8 * u8 }.
End VertexEx1.

Module VertexEx2.
Record t := mk { bone_ids : i8 * i8 * i8; weights : u8 * u8 * u8; extra : u32 }.
End VertexEx2.

Module VertexEx3.
Record t := mk { bone_ids : i8 * i8 * i8; weights : u8 * u8 * u8; extra : u32 * u32 }.
End VertexEx3.

Inductive VertexExInfo :=
| SubVersion1 (v : list VertexEx1.t)
| SubVersion2 (v : list VertexEx2.t)
| SubVersion3 (v : list VertexEx3.t).

Module JointEx.
Record t := mk { color : f32 * f32 * f32 }.
End JointEx.

Module JointExInfo.
Record t := mk { sub_version : i32; joint_ex : list JointEx.t }.
End JointExInfo.

Module ModelEx.
Record t := mk { joint_size : f32; transparency_mode : i32; alpha_ref : f32 }.
End ModelEx.

Module ModelExInfo.
Record t := mk { sub_version : i32; model_ex : ModelEx.t }.
End ModelExInfo.

Module Model.
Record t := mk { header : Header.t; vertices : list Vertex.t;
                 triangles : list Triangle.t; groups : list Group.t;
                 materials : list Material.t; key_frame_data : KeyFrameData.t;
                 joints : list Joint.t; comments : Comments.t;
                 vertex_ex_info : VertexExInfo; joint_ex_info : JointExInfo.t;
                 model_ex_info : ModelExInfo.t }.
End Model.

(** ** lib.rs: conversions *)

(** [memchr(c, bytes)]: the index of the first [c]. *)
Fixpoint memchr (c : byte) (bytes : list byte) : option nat :=
  match bytes with
  | [] => None
  | b :: bs =>
    if Byte.eqb b c then Some O
    else match memchr c bs with Some i => Some (S i) | None => None end
  end.

(** [String::from_utf8] / [str::from_utf8]. *)
Definition from_utf8 (v : list byte) : list byte + Error :=
  if utf8_valid v then inl v else inr Utf8.

Definition convert_string (bytes : list byte) : list byte + Error :=
  let vec := match memchr x00 bytes with
             | Some i => firstn i bytes
             | None => bytes
             end in
  from_utf8 vec.

(** [convert_path]: the [String] turned into a [PathBuf], same bytes. *)
Definition convert_path (bytes : list byte) : list byte + Error :=
  convert_string bytes.

Definition convert_flags (b : u8) (allowed : Flags) : Flags + Error :=
  match Flags.from_bits b with
  | Some flags => if Flags.contains allowed flags then inl flags
                  else inr (Invalid "invalid flags")
  | None => inr (Invalid "invalid flags")
  end.

Definition MAGIC : list byte := list_byte_of_string "MS3D000000".

(** ** lib.rs: the [Reader] *)

Section Reader.
Context {R : Type} `{Read R}.

(** [self.rdr.buf_read_exact(len)?] *)
Definition read_bytes (len : usize) : M R (list byte) :=
  fun self => match read len self with
              | Returned (IoOk bs) self' => Ok bs self'
              | Returned (IoErr k) _ => Err (Io k)
              | Panicked msg => Panic msg
              end.

(** [read_type::<T>]: [size_of::<T>()] bytes, then [ptr::read_unaligned]. *)
Definition read_type {T} (size : nat) (of_bytes : list byte -> T) : M R T :=
  bs <- read_bytes (Z.of_nat size) ;; ret (of_bytes bs).

Definition read_u16 : M R u16 := read_type 2 De.u16_of_bytes.
Definition read_u32 : M R u32 := read_type 4 De.u32_of_bytes.
Definition read_i32 : M R i32 := read_type 4 De.i32_of_bytes.

(** [read_vec(len, f)]: [(0..len).map(|_| f(self)).collect()]. *)
Fixpoint read_vec_nat {T} (n : nat) (f : M R T) : M R (list T) :=
  match n with
  | O => ret []
  | S n => x <- f ;; xs <- read_vec_nat n f ;; ret (x :: xs)
  end.

Definition read_vec {T} (len : usize) (f : M R T) : M R (list T) :=
  read_vec_nat (Z.to_nat len) f.

Definition read_string (len : usize) : M R (list byte) :=
  bs <- read_bytes len ;; lift (from_utf8 bs).

Definition read_header : M R Header.t :=
  h <- read_type De.Header.size De.Header.of_bytes ;;
  _ <- ensure (if list_eq_dec Byte.byte_eq_dec (De.Header.id h) MAGIC
               then true else false) "invalid header" ;;
  _ <- ensure (De.Header.version h =? 4) "unsupported version" ;;
  ret (Header.mk (De.Header.version h)).

Definition read_vertex : M R Vertex.t :=
  v <- read_type De.Vertex.size De.Vertex.of_bytes ;;
  flags <- lift (convert_flags (De.Vertex.flags v) Vertex.ALLOWED_FLAGS) ;;
  ret (Vertex.mk flags (De.Vertex.vertex v) (De.Vertex.bone_id v)
                 (De.Vertex.reference_count v)).

Definition read_vertices : M R (list Vertex.t) :=
  len <- read_u16 ;; read_vec len read_vertex.

Definition read_triangle : M R Triangle.t :=
  t <- read_type De.Triangle.size De.Triangle.of_bytes ;;
  (* [flags as u8] *)
  flags <- lift (convert_flags (De.Triangle.flags t mod 256) Triangle.ALLOWED_FLAGS) ;;
  ret (Triangle.mk flags (De.Triangle.vertex_indices t) (De.Triangle.vertex_normals t)
                   (De.Triangle.s t) (De.Triangle.t_ t)
                   (De.Triangle.smoothing_group t) (De.Triangle.group_index t)).

Definition read_triangles : M R (list Triangle.t) :=
  len <- read_u16 ;; read_vec len read_triangle.

Definition read_group : M R Group.t :=
  p <- read_type De.GroupPrefix.size De.GroupPrefix.of_bytes ;;
  flags <- lift (convert_flags (De.GroupPrefix.flags p) Group.ALLOWED_FLAGS) ;;
  name <- lift (convert_string (De.GroupPrefix.name p)) ;;
  triangle_indices <- read_vec (De.GroupPrefix.num_triangles p) read_u16 ;;
  sfx <- read_type De.GroupSuffix.size De.GroupSuffix.of_bytes ;;
  ret (Group.mk flags name triangle_indices (De.GroupSuffix.material_index sfx)).

Definition read_groups : M R (list Group.t) :=
  len <- read_u16 ;; read_vec len read_group.

Definition read_material : M R Material.t :=
  m <- read_type De.Material.size De.Material.of_bytes ;;
  name <- lift (convert_string (De.Material.name m)) ;;
  texture <- lift (convert_path (De.Material.texture m)) ;;
  alphamap <- lift (convert_path (De.Material.alphamap m)) ;;
  ret (Material.mk name (De.Material.ambient m) (De.Material.diffuse m)
                   (De.Material.specular m) (De.Material.emissive m)
                   (De.Material.shininess m) (De.Material.transparency m)
                   (De.Material.mode m) texture alphamap).

Definition read_materials : M R (list Material.t) :=
  len <- read_u16 ;; read_vec len read_material.

Definition read_key_frame_data : M R KeyFrameData.t :=
  k <- read_type De.KeyFrameData.size De.KeyFrameData.of_bytes ;;
  ret (KeyFrameData.mk (De.KeyFrameData.animation_fps k)
                       (De.KeyFrameData.current_time k)
                       (De.KeyFrameData.total_frames k)).

Definition read_key_frame_rot : M R KeyFrameRot.t :=
  k <- read_type De.KeyFrameRot.size De.KeyFrameRot.of_bytes ;;
  ret (KeyFrameRot.mk (De.KeyFrameRot.time k) (De.KeyFrameRot.rotation k)).

Definition read_key_frame_pos : M R KeyFramePos.t :=
  k <- read_type De.KeyFramePos.size De.KeyFramePos.of_bytes ;;
  ret (KeyFramePos.mk (De.KeyFramePos.time k) (De.KeyFramePos.position k)).

Definition read_joint : M R Joint.t :=
  p <- read_type De.JointPrefix.size De.JointPrefix.of_bytes ;;
  flags <- lift (convert_flags (De.JointPrefix.flags p) Joint.ALLOWED_FLAGS) ;;
  name <- lift (convert_string (De.JointPrefix.name p)) ;;
  parent_name <- lift (convert_string (De.JointPrefix.parent_name p)) ;;
  key_frames_rot <- read_vec (De.JointPrefix.num_key_frames_rot p) read_key_frame_rot ;;
  key_frames_trans <- read_vec (De.JointPrefix.num_key_frames_trans p) read_key_frame_pos ;;
  ret (Joint.mk flags name parent_name (De.JointPrefix.rotation p)
                (De.JointPrefix.position p) key_frames_rot key_frames_trans).

Definition read_joints : M R (list Joint.t) :=
  len <- read_u16 ;; read_vec len read_joint.

Definition read_comment : M R Comment.t :=
  p <- read_type De.CommentPrefix.size De.CommentPrefix.of_bytes ;;
  comment <- read_string (usize_of_i32 (De.CommentPrefix.comment_length p)) ;;
  ret (Comment.mk (De.CommentPrefix.index p) comment).

(** [match len { 0 => None, 1 => Some(..), _ => bail!(..) }] *)
Definition read_model_comment (len : usize) : M R (option Comment.t) :=
  if len =? 0 then ret None
  else if len =? 1 then c <- read_comment ;; ret (Some c)
  else fail (Invalid "invalid number of model comments").

Definition read_comments : M R Comments.t :=
  sub_version <- read_i32 ;;
  _ <- ensure (sub_version =? 1) "unsupported comment sub-version" ;;
  len <- read_u32 ;;
  group_comments <- read_vec len read_comment ;;
  len <- read_i32 ;;
  material_comments <- read_vec (usize_of_i32 len) read_comment ;;
  len <- read_i32 ;;
  joint_comments <- read_vec (usize_of_i32 len) read_comment ;;
  len <- read_i32 ;;
  model_comment <- read_model_comment (usize_of_i32 len) ;;
  ret (Comments.mk sub_version group_comments material_comments joint_comments
                   model_comment).

Definition read_vertex_ex_1 : M R VertexEx1.t :=
  v <- read_type De.VertexEx1.size De.VertexEx1.of_bytes ;;
  ret (VertexEx1.mk (De.VertexEx1.bone_ids v) (De.VertexEx1.weights v)).

Definition read_vertex_ex_2 : M R VertexEx2.t :=
  v <- read_type De.VertexEx2.size De.VertexEx2.of_bytes ;;
  ret (VertexEx2.mk (De.VertexEx2.bone_ids v) (De.VertexEx2.weights v)
                    (De.VertexEx2.extra v)).

Definition read_vertex_ex_3 : M R VertexEx3.t :=
  v <- read_type De.VertexEx3.size De.VertexEx3.of_bytes ;;
  ret (VertexEx3.mk (De.VertexEx3.bone_ids v) (De.VertexEx3.weights v)
                    (De.VertexEx3.extra v)).

Definition read_vertex_ex_info (len : usize) : M R VertexExInfo :=
  sub_version <- read_i32 ;;
  if sub_version =? 1 then v <- read_vec len read_vertex_ex_1 ;; ret (SubVersion1 v)
  else if sub_version =? 2 then v <- read_vec len read_vertex_ex_2 ;; ret (SubVersion2 v)
  else if sub_version =? 3 then v <- read_vec len read_vertex_ex_3 ;; ret (SubVersion3 v)
  else fail (Invalid "unsupported vertex ex sub-version").

Definition read_joint_ex : M R JointEx.t :=
  j <- read_type De.JointEx.size De.JointEx.of_bytes ;;
  ret (JointEx.mk (De.JointEx.color j)).

Definition read_joint_ex_info (len : usize) : M R JointExInfo.t :=
  sub_version <- read_i32 ;;
  _ <- ensure (sub_version =? 1) "unsupported joint ex sub-version" ;;
  joint_ex <- read_vec len read_joint_ex ;;
  ret (JointExInfo.mk sub_version joint_ex).

Definition read_model_ex : M R ModelEx.t :=
  m <- read_type De.ModelEx.size De.ModelEx.of_bytes ;;
  ret (ModelEx.mk (De.ModelEx.joint_size m) (De.ModelEx.transparency_mode m)
                  (De.ModelEx.alpha_ref m)).

Definition read_model_ex_info : M R ModelExInfo.t :=
  sub_version <- read_i32 ;;
  _ <- ensure (sub_version =? 1) "unsupported model ex sub-version" ;;
  model_ex <- read_model_ex ;;
  ret (ModelExInfo.mk sub_version model_ex).

Definition read_model : M R Model.t :=
  header <- read_header ;;
  vertices <- read_vertices ;;
  triangles <- read_triangles ;;
  groups <- read_groups ;;
  materials <- read_materials ;;
  key_frame_data <- read_key_frame_data ;;
  joints <- read_joints ;;
  comments <- read_comments ;;
  vertex_ex_info <- read_vertex_ex_info (Z.of_nat (length vertices)) ;;
  joint_ex_info <- read_joint_ex_info (Z.of_nat (length joints)) ;;
  model_ex_info <- read_model_ex_info ;;
  ret (Model.mk header vertices triangles groups materials key_frame_data joints
                comments vertex_ex_info joint_ex_info model_ex_info).

End Reader.

(** A decode result: the model, an error, or a panic. *)
Definition run {S A} (m : M S A) (s : S) : outcome unit A :=
  match m s with
  | Ok x _ => Ok x tt
  | Err e => Err e
  | Panic p => Panic p
  end.

(** [Model::from_reader]: the streaming backend over the stream's bytes. *)
Definition from_reader (stream : list byte) : outcome unit Model.t :=
  run read_model (IoReader.new stream).

(** [Model::from_bytes]: the in-memory backend. *)
Definition from_bytes (bytes : list byte) : outcome unit Model.t :=
  run read_model (SliceReader.new bytes).

(** ** An encoder built to the layout table of the format

    Not part of the crate: the writer the round-trip property speaks of,
    laying each record out packed and little-endian, in the decoder's
    section order. A name or path is written null-padded to its slot. *)

Module Encode.

Definition name (n : nat) (s : list byte) : list byte :=
  s ++ repeat x00 (n - length s).

Definition header (h : Header.t) : list byte :=
  MAGIC ++ enc_u 4 (Header.version h).

Definition vertex (v : Vertex.t) : list byte :=
  enc_u 1 (bits (Vertex.flags v)) ++ enc_f32x3 (Vertex.vertex v) ++
  enc_u 1 (Vertex.bone_id v) ++ enc_u 1 (Vertex.reference_count v).

Definition u16x3 (x : u16 * u16 * u16) : list byte :=
  let '(a, b, c) := x in enc_u 2 a ++ enc_u 2 b ++ enc_u 2 c.

Definition f32x3x3 (x : (f32 * f32 * f32) * (f32 * f32 * f32) * (f32 * f32 * f32))
  : list byte :=
  let '(a, b, c) := x in enc_f32x3 a ++ enc_f32x3 b ++ enc_f32x3 c.

Definition triangle (t : Triangle.t) : list byte :=
  enc_u 2 (bits (Triangle.flags t)) ++ u16x3 (Triangle.vertex_indices t) ++
  f32x3x3 (Triangle.vertex_normals t) ++ enc_f32x3 (Triangle.s t) ++
  enc_f32x3 (Triangle.t_ t) ++ enc_u 1 (Triangle.smoothing_group t) ++
  enc_u 1 (Triangle.group_index t).

Definition group_prefix (g : Group.t) : list byte :=
  enc_u 1 (bits (Group.flags g)) ++ name 32 (Group.name g) ++
  enc_u 2 (Z.of_nat (length (Group.triangle_indices g))).

Definition group (g : Group.t) : list byte :=
  group_prefix g ++ flat_map (enc_u 2) (Group.triangle_indices g) ++
  enc_u 1 (Group.material_index g).

Definition material (m : Material.t) : list byte :=
  name 32 (Material.name m) ++ enc_f32x4 (Material.ambient m) ++
  enc_f32x4 (Material.diffuse m) ++ enc_f32x4 (Material.specular m) ++
  enc_f32x4 (Material.emissive m) ++ enc_u 4 (Material.shininess m) ++
  enc_u 4 (Material.transparency m) ++ enc_u 1 (Material.mode m) ++
  name 128 (Material.texture m) ++ name 128 (Material.alphamap m).

Definition key_frame_data (k : KeyFrameData.t) : list byte :=
  enc_u 4 (KeyFrameData.animation_fps k) ++ enc_u 4 (KeyFrameData.current_time k) ++
  enc_u 4 (KeyFrameData.total_frames k).

Definition key_frame_rot (k : KeyFrameRot.t) : list byte :=
  enc_u 4 (KeyFrameRot.time k) ++ enc_f32x3 (KeyFrameRot.rotation k).

Definition key_frame_pos (k : KeyFramePos.t) : list byte :=
  enc_u 4 (KeyFramePos.time k) ++ enc_f32x3 (KeyFramePos.position k).

Definition joint_prefix (j : Joint.t) : list byte :=
  enc_u 1 (bits (Joint.flags j)) ++ name 32 (Joint.name j) ++
  name 32 (Joint.parent_name j) ++ enc_f32x3 (Joint.rotation j) ++
  enc_f32x3 (Joint.position j) ++
  enc_u 2 (Z.of_nat (length (Joint.key_frames_rot j))) ++
  enc_u 2 (Z.of_nat (length (Joint.key_frames_trans j))).

Definition joint (j : Joint.t) : list byte :=
  joint_prefix j ++ flat_map key_frame_rot (Joint.key_frames_rot j) ++
  flat_map key_frame_pos (Joint.key_frames_trans j).

Definition comment_prefix (c : Comment.t) : list byte :=
  enc_u 4 (Comment.index c) ++ enc_u 4 (Z.of_nat (length (Comment.comment c))).

Definition comment (c : Comment.t) : list byte :=
  comment_prefix c ++ Comment.comment c.

Definition comment_list (cs : list Comment.t) : list byte :=
  enc_u 4 (Z.of_nat (length cs)) ++ flat_map comment cs.

Definition model_comment (c : option Comment.t) : list byte :=
  match c with
  | None => enc_u 4 0
  | Some c => enc_u 4 1 ++ comment c
  end.

Definition comments (c : Comments.t) : list byte :=
  enc_u 4 (Comments.sub_version c) ++
  comment_list (Comments.group_comments c) ++
  comment_list (Comments.material_comments c) ++
  comment_list (Comments.joint_comments c) ++
  model_comment (Comments.model_comment c).

Definition bytes_i8x3 (x : i8 * i8 * i8) : list byte :=
  let '(a, b, c) := x in enc_u 1 a ++ enc_u 1 b ++ enc_u 1 c.

Definition vertex_ex_1 (v : VertexEx1.t) : list byte :=
  bytes_i8x3 (VertexEx1.bone_ids v) ++ bytes_i8x3 (VertexEx1.weights v).

Definition vertex_ex_2 (v : VertexEx2.t) : list byte :=
  bytes_i8x3 (VertexEx2.bone_ids v) ++ bytes_i8x3 (VertexEx2.weights v) ++
  enc_u 4 (VertexEx2.extra v).

Definition vertex_ex_3 (v : VertexEx3.t) : list byte :=
  bytes_i8x3 (VertexEx3.bone_ids v) ++ bytes_i8x3 (VertexEx3.weights v) ++
  enc_u 4 (fst (VertexEx3.extra v)) ++ enc_u 4 (snd (VertexEx3.extra v)).

Definition vertex_ex_info (x : VertexExInfo) : list byte :=
  match x with
  | SubVersion1 v => enc_u 4 1 ++ flat_map vertex_ex_1 v
  | SubVersion2 v => enc_u 4 2 ++ flat_map vertex_ex_2 v
  | SubVersion3 v => enc_u 4 3 ++ flat_map vertex_ex_3 v
  end.

Definition joint_ex_info (j : JointExInfo.t) : list byte :=
  enc_u 4 (JointExInfo.sub_version j) ++
  flat_map (fun e => enc_f32x3 (JointEx.color e)) (JointExInfo.joint_ex j).

Definition model_ex_info (m : ModelExInfo.t) : list byte :=
  let e := ModelExInfo.model_ex m in
  enc_u 4 (ModelExInfo.sub_version m) ++ enc_u 4 (ModelEx.joint_size e) ++
  enc_u 4 (ModelEx.transparency_mode e) ++ enc_u 4 (ModelEx.alpha_ref e).

Definition section {A} (f : A -> list byte) (xs : list A) : list byte :=
  enc_u 2 (Z.of_nat (length xs)) ++ flat_map f xs.

(** Sections 1 to 8: everything before the VertexExInfo sub-version tag. *)
Definition core (m : Model.t) : list byte :=
  header (Model.header m) ++ section vertex (Model.vertices m) ++
  section triangle (Model.triangles m) ++ section group (Model.groups m) ++
  section material (Model.materials m) ++
  key_frame_data (Model.key_frame_data m) ++ section joint (Model.joints m) ++
  comments (Model.comments m).

Definition model (m : Model.t) : list byte :=
  core m ++ vertex_ex_info (Model.vertex_ex_info m) ++
  joint_ex_info (Model.joint_ex_info m) ++ model_ex_info (Model.model_ex_info m).

(** Everything before the model-comment count: sections 1 to 7 and the
    first three comment lists. *)
Definition comments_head (c : Comments.t) : list byte :=
  enc_u 4 (Comments.sub_version c) ++
  comment_list (Comments.group_comments c) ++
  comment_list (Comments.material_comments c) ++
  comment_list (Comments.joint_comments c).

Definition before_model_comment (m : Model.t) : list byte :=
  header (Model.header m) ++ section vertex (Model.vertices m) ++
  section triangle (Model.triangles m) ++ section group (Model.groups m) ++
  section material (Model.materials m) ++
  key_frame_data (Model.key_frame_data m) ++ section joint (Model.joints m) ++
  comments_head (Model.comments m).

End Encode.

(** [m] reads back, from the bytes [enc] writes, every value it decodes. *)
Definition roundtrips {A} (m : M SliceReader.SliceReader A) (enc : A -> list byte) : Prop :=
  forall s x s' t, m s = Ok x s' ->
  m (SliceReader.new (enc x ++ t)) = Ok x (SliceReader.new t).

(** [m] with its model comment and its three ex-info sections replaced. *)
Definition with_tail (m : Model.t) (mc : option Comment.t) (ve : VertexExInfo)
  (je : JointExInfo.t) (me : ModelExInfo.t) : Model.t :=
  let c := Model.comments m in
  Model.mk (Model.header m) (Model.vertices m) (Model.triangles m) (Model.groups m)
    (Model.materials m) (Model.key_frame_data m) (Model.joints m)
    (Comments.mk (Comments.sub_version c) (Comments.group_comments c)
       (Comments.material_comments c) (Comments.joint_comments c) mc)
    ve je me.

(** A small file's model: no geometry, no comments, empty ex-info. *)
Definition sample_model : Model.t :=
  Model.mk (Header.mk 4) [] [] [] [] (KeyFrameData.mk 0 0 0) []
    (Comments.mk 1 [] [] [] None) (SubVersion1 []) (JointExInfo.mk 1 [])
    (ModelExInfo.mk 1 (ModelEx.mk 0 0 0)).

Definition sample_comment : Comment.t := Comment.mk 0 (list_byte_of_string "hi").

(** A model with records in every list section, names, comments and
    sub-version 2 vertex ex-info. *)
Definition rich_model : Model.t :=
  Model.mk (Header.mk 4)
    [Vertex.mk Flags.SELECTED (0, 0, 0) (-1) 1]
    [Triangle.mk Flags.HIDDEN (0, 1, 2) ((0, 0, 0), (0, 0, 0), (0, 0, 0)) (0, 0, 0) (0, 0, 0) 1 0]
    [Group.mk Flags.SELECTED (list_byte_of_string "body") [0] 0]
    [Material.mk (list_byte_of_string "skin") (0, 0, 0, 0) (0, 0, 0, 0) (0, 0, 0, 0)
       (0, 0, 0, 0) 0 0 0 (list_byte_of_string "skin.bmp") []]
    (KeyFrameData.mk 0 0 0)
    [Joint.mk Flags.DIRTY (list_byte_of_string "root") [] (0, 0, 0) (0, 0, 0)
       [KeyFrameRot.mk 0 (0, 0, 0)] [KeyFramePos.mk 0 (0, 0, 0)]]
    (Comments.mk 1 [sample_comment] [] [] (Some sample_comment))
    (SubVersion2 [VertexEx2.mk (0, 0, 0) (100, 0, 0) 0])
    (JointExInfo.mk 1 [JointEx.mk (0, 0, 0)])
    (ModelExInfo.mk 1 (ModelEx.mk 0 0 0)).

(** A file whose material-comment count is [-1]: header, empty geometry
    sections, key-frame data, no joints, then the comment block up to that
    count. *)
Definition negative_count_file : list byte :=
  Encode.header (Header.mk 4) ++ enc_u 2 0 ++ enc_u 2 0 ++ enc_u 2 0 ++ enc_u 2 0 ++
  Encode.key_frame_data (KeyFrameData.mk 0 0 0) ++ enc_u 2 0 ++
  enc_u 4 1 ++ enc_u 4 0 ++ enc_u 4 (-1).

(** The same prefix with one group comment whose byte length is [-1]. *)
Definition panic_file : list byte :=
  Encode.header (Header.mk 4) ++ enc_u 2 0 ++ enc_u 2 0 ++ enc_u 2 0 ++ enc_u 2 0 ++
  Encode.key_frame_data (KeyFrameData.mk 0 0 0) ++ enc_u 2 0 ++
  enc_u 4 1 ++ enc_u 4 1 ++ enc_u 4 0 ++ enc_u 4 (-1).

(** The test of [convert_flags], checked against the single mask test
    [b & !(all & allowed) == 0] for every pair of bytes. *)
Definition flags_table_ok : bool :=
  forallb (fun a => forallb (fun b =>
    Bool.eqb ((Z.land b 240 =? 0) && (Z.land a b =? b))
             (Z.land b (Z.lnot (Z.land 15 a)) =? 0))
    (map Z.of_nat (seq 0 256))) (map Z.of_nat (seq 0 256)).

(** ** Relating the two backends

    Outcomes of the stream and the slice backend, related: the same value
    from the same remaining bytes (the stream's buffer capacity staying at
    most [2^33]), the same error, or a panic of the stream where the slice
    reports the end of its input. *)
Definition sim_rel {A} (P : A -> Prop)
  (oI : outcome IoReader.IoReader A) (oS : outcome SliceReader.SliceReader A) : Prop :=
  match oI, oS with
  | Ok x sI, Ok y sS =>
    x = y /\ P x /\ IoReader.rdr sI = SliceReader.slice sS /\
    0 <= IoReader.buf_capacity sI <= 2 ^ 33 /\
    Z.of_nat (length (SliceReader.slice sS)) <= isize_MAX
  | Err e, Err e' => e = e'
  | Panic _, Err (Io UnexpectedEof) => True
  | _, _ => False
  end.

(** A reader run on both backends from the same bytes gives related outcomes. *)
Definition sim {A} (P : A -> Prop) (mI : M IoReader.IoReader A)
  (mS : M SliceReader.SliceReader A) : Prop :=
  forall l cap, 0 <= cap <= 2 ^ 33 -> Z.of_nat (length l) <= isize_MAX ->
  sim_rel P (mI (IoReader.mk l cap)) (mS (SliceReader.new l)).

(** The lengths the decoder asks for: a record size or a [u32], or a
    negative [i32] cast to [usize]. *)
Definition good_len (n : Z) : Prop := 0 <= n <= 2 ^ 32 \/ isize_MAX < n.

(** The number of per-vertex records of a [VertexExInfo], whatever its
    sub-version. *)
Definition vertex_ex_count (v : VertexExInfo) : nat :=
  match v with
  | SubVersion1 l => length l
  | SubVersion2 l => length l
  | SubVersion3 l => length l
  end.

(** A decoded name: valid UTF-8 holding no zero byte. *)
Definition name_ok (s : list byte) : Prop := utf8_valid s = true /\ ~ In x00 s.

(** How a slice-backend reader treats its input: on success it consumed a
    prefix [p], reads the same from [p] followed by anything, and fails with
    [UnexpectedEof] on every proper prefix of [p]; a failure other than an
    I/O error stays when bytes are appended; it never panics. *)
Definition exact {A} (m : M SliceReader.SliceReader A) : Prop :=
  forall l,
  match m (SliceReader.new l) with
  | Ok x s =>
    exists p, l = p ++ SliceReader.slice s /\
    (forall r, m (SliceReader.new (p ++ r)) = Ok x (SliceReader.new r)) /\
    (forall q u, q ++ u = p -> u <> [] -> m (SliceReader.new q) = Err (Io UnexpectedEof))
  | Err (Io _) => True
  | Err e => forall t, m (SliceReader.new (l ++ t)) = Err e
  | Panic _ => False
  end.

(** * Proofs *)

(** ** Bytes and little-endian values *)

Lemma byte_val_range (b : byte) : 0 <= byte_val b < 256.
Proof.
  unfold byte_val. pose proof (Byte.to_N_bounded b). lia.
Qed.

Lemma byte_val_of_Z (z : Z) : byte_val (byte_of_Z z) = z mod 256.
Proof.
  unfold byte_of_Z, byte_val.
  destruct (Byte.of_N (Z.to_N (z mod 256))) as [b|] eqn:E.
  - apply Byte.to_of_N in E. rewrite E. rewrite Z2N.id; [reflexivity|].
    apply Z.mod_pos_bound. lia.
  - apply Byte.of_N_None_iff in E. pose proof (Z.mod_pos_bound z 256). lia.
Qed.

Lemma byte_of_Z_val (b : byte) : byte_of_Z (byte_val b) = b.
Proof.
  unfold byte_of_Z, byte_val. rewrite Z.mod_small by (apply byte_val_range).
  rewrite N2Z.id, Byte.of_to_N. reflexivity.
Qed.

Lemma length_le_bytes (n : nat) (z : Z) : length (le_bytes n z) = n.
Proof. revert z; induction n; intros; simpl; auto. Qed.

Lemma le_range (l : list byte) : 0 <= le l < 2 ^ (8 * Z.of_nat (length l)).
Proof.
  induction l as [|b l IH].
  - simpl. lia.
  - change (le (b :: l)) with (byte_val b + 256 * le l).
    change (length (b :: l)) with (S (length l)).
    pose proof (byte_val_range b).
    replace (8 * Z.of_nat (S (length l)))
      with (8 + 8 * Z.of_nat (length l)) by lia.
    rewrite Z.pow_add_r by lia. change (2 ^ 8) with 256. nia.
Qed.

Lemma le_firstn_range (n : nat) (l : list byte) :
  0 <= le (firstn n l) < 2 ^ (8 * Z.of_nat n).
Proof.
  pose proof (le_range (firstn n l)). rewrite length_firstn in H.
  split; [lia|]. eapply Z.lt_le_trans; [apply H|].
  apply Z.pow_le_mono_r; lia.
Qed.

Lemma le_le_bytes (n : nat) (z : Z) : le (le_bytes n z) = z mod 2 ^ (8 * Z.of_nat n).
Proof.
  revert z; induction n as [|n IH]; intros z; simpl le_bytes; simpl le.
  - rewrite Z.mod_1_r. reflexivity.
  - rewrite IH, byte_val_of_Z.
    replace (8 * Z.of_nat (S n)) with (8 + 8 * Z.of_nat n) by lia.
    rewrite Z.pow_add_r by lia. change (2 ^ 8) with 256.
    rewrite Z.rem_mul_r; [reflexivity | lia | ].
    pose proof (Z.pow_pos_nonneg 2 (8 * Z.of_nat n)). lia.
Qed.

Lemma byte_of_Z_add (a c : Z) : byte_of_Z (a + 256 * c) = byte_of_Z a.
Proof.
  unfold byte_of_Z. rewrite (Z.mul_comm 256 c), Z.mod_add by lia. reflexivity.
Qed.

Lemma le_bytes_le (l : list byte) : le_bytes (length l) (le l) = l.
Proof.
  induction l as [|b l IH]; [reflexivity|].
  cbn [length le_bytes le]. pose proof (byte_val_range b). f_equal.
  - rewrite byte_of_Z_add. apply byte_of_Z_val.
  - replace ((byte_val b + 256 * le l) / 256) with (le l); [exact IH|].
    rewrite (Z.mul_comm 256 (le l)), Z.div_add, Z.div_small by lia. lia.
Qed.

Lemma le_bytes_mod (n : nat) (z : Z) :
  le_bytes n (z mod 2 ^ (8 * Z.of_nat n)) = le_bytes n z.
Proof.
  revert z; induction n as [|n IH]; intros z; [reflexivity|].
  assert (Hp : 0 < 2 ^ (8 * Z.of_nat n)) by (apply Z.pow_pos_nonneg; lia).
  assert (E : z mod 2 ^ (8 * Z.of_nat (S n))
              = z mod 256 + 256 * ((z / 256) mod 2 ^ (8 * Z.of_nat n))).
  { replace (8 * Z.of_nat (S n)) with (8 + 8 * Z.of_nat n) by lia.
    rewrite Z.pow_add_r by lia. change (2 ^ 8) with 256.
    apply Z.rem_mul_r; lia. }
  cbn [le_bytes]. rewrite E. f_equal.
  - rewrite byte_of_Z_add. unfold byte_of_Z. rewrite Z.mod_mod by lia. reflexivity.
  - rewrite <- (IH (z / 256)). f_equal.
    rewrite (Z.mul_comm 256), Z.div_add by lia.
    rewrite Z.div_small by (apply Z.mod_pos_bound; lia). lia.
Qed.

Lemma signed_mod (n : nat) (u : Z) :
  (0 < n)%nat -> 0 <= u < 2 ^ (8 * Z.of_nat n) ->
  signed (8 * Z.of_nat n) u mod 2 ^ (8 * Z.of_nat n) = u.
Proof.
  intros Hn Hu. unfold signed. destruct (u <? _).
  - apply Z.mod_small. lia.
  - replace (u - 2 ^ (8 * Z.of_nat n)) with (u + (-1) * 2 ^ (8 * Z.of_nat n)) by lia.
    rewrite Z.mod_add by lia. apply Z.mod_small. lia.
Qed.

(** The field rules: re-encoding a decoded field and reading it back. *)

Lemma firstn_le_bytes_app (n : nat) (z : Z) (t : list byte) :
  firstn n (le_bytes n z ++ t) = le_bytes n z.
Proof.
  rewrite firstn_app, length_le_bytes, Nat.sub_diag, firstn_O, app_nil_r.
  rewrite <- (length_le_bytes n z) at 1. apply firstn_all.
Qed.

Lemma skipn_le_bytes_app (n : nat) (z : Z) (t : list byte) :
  skipn n (le_bytes n z ++ t) = t.
Proof.
  rewrite skipn_app, length_le_bytes, Nat.sub_diag, skipn_O.
  rewrite <- (length_le_bytes n z) at 1. rewrite skipn_all. reflexivity.
Qed.

Lemma le_le_bytes_firstn (n : nat) (l : list byte) :
  le (le_bytes n (le (firstn n l))) = le (firstn n l).
Proof.
  rewrite le_le_bytes. apply Z.mod_small, le_firstn_range.
Qed.

Lemma signed_le_le_bytes_firstn (n : nat) (w : Z) (l : list byte) :
  (0 < n)%nat -> w = 8 * Z.of_nat n ->
  signed w (le (le_bytes n (signed w (le (firstn n l))))) = signed w (le (firstn n l)).
Proof.
  intros Hn ->. rewrite le_le_bytes, signed_mod; auto. apply le_firstn_range.
Qed.

(** ** The slice backend and the monad *)

Arguments le_bytes : simpl never.
Arguments le : simpl never.
#[local] Arguments firstn : simpl never.
#[local] Arguments skipn : simpl never.

Lemma bind_Ok {S A B} (m : M S A) (k : A -> M S B) s y s'' :
  bind m k s = Ok y s'' -> exists x s', m s = Ok x s' /\ k x s' = Ok y s''.
Proof. unfold bind. destruct (m s); intros; try discriminate. eauto. Qed.

Lemma bind_step {S A B} (m : M S A) (k : A -> M S B) s x s' :
  m s = Ok x s' -> bind m k s = k x s'.
Proof. unfold bind. intros ->. reflexivity. Qed.

Lemma lift_Ok {S A} (r : A + Error) (s s' : S) x :
  lift r s = Ok x s' -> r = inl x /\ s' = s.
Proof. destruct r; cbn; intros H; inversion H; auto. Qed.

Lemma ensure_Ok {S} c msg (s s' : S) u :
  ensure c msg s = Ok u s' -> c = true /\ s' = s.
Proof. destruct c; cbn; intros H; inversion H; auto. Qed.

Lemma read_bytes_slice (n : usize) (l : list byte) :
  read_bytes n (SliceReader.new l) =
  if n >? Z.of_nat (length l) then Err (Io UnexpectedEof)
  else Ok (firstn (Z.to_nat n) l) (SliceReader.new (skipn (Z.to_nat n) l)).
Proof.
  unfold read_bytes, read, SliceReader_Read, SliceReader.read. cbn.
  destruct (n >? _); reflexivity.
Qed.

Lemma read_type_slice_Ok {T} (n : nat) (f : list byte -> T) s x s' :
  read_type n f s = Ok x s' ->
  (n <= length (SliceReader.slice s))%nat /\
  x = f (firstn n (SliceReader.slice s)) /\
  s' = SliceReader.new (skipn n (SliceReader.slice s)).
Proof.
  destruct s as [l]. unfold read_type. intros H.
  apply bind_Ok in H as (bs & s1 & Hb & Hr).
  rewrite read_bytes_slice in Hb. cbn.
  destruct (Z.of_nat n >? Z.of_nat (length l)) eqn:E; [discriminate|].
  inversion Hb; subst. inversion Hr; subst.
  rewrite Z.gtb_ltb in E. apply Z.ltb_ge in E. rewrite Nat2Z.id. split; [lia|auto].
Qed.

Lemma read_type_slice_app {T} (n : nat) (f : list byte -> T) b t :
  length b = n ->
  read_type n f (SliceReader.new (b ++ t)) = Ok (f b) (SliceReader.new t).
Proof.
  intros Hl. unfold read_type. erewrite bind_step; [reflexivity|].
  rewrite read_bytes_slice, length_app, Nat2Z.id.
  destruct (Z.of_nat n >? Z.of_nat (length b + length t)) eqn:E.
  - apply Z.gtb_lt in E. lia.
  - rewrite firstn_app, skipn_app, Hl, Nat.sub_diag, firstn_O, skipn_O, app_nil_r.
    subst n. rewrite firstn_all, skipn_all. reflexivity.
Qed.

Lemma convert_flags_inl b allowed f :
  convert_flags b allowed = inl f -> f = mkFlags b.
Proof.
  unfold convert_flags. destruct (Flags.from_bits b) eqn:E; [|discriminate].
  unfold Flags.from_bits in E. destruct (_ =? 0); inversion E; subst.
  destruct (Flags.contains _ _); congruence.
Qed.


(** ** Names in fixed slots *)

Lemma memchr_None c l : memchr c l = None -> ~ In c l.
Proof.
  induction l as [|b l IH]; cbn; [tauto|].
  destruct (Byte.eqb b c) eqn:E; [discriminate|].
  destruct (memchr c l); [discriminate|]. intros _ [->|Hin].
  - rewrite Byte.byte_dec_lb in E; auto. discriminate.
  - apply IH; auto.
Qed.

Lemma memchr_Some c l i :
  memchr c l = Some i -> (i < length l)%nat /\ ~ In c (firstn i l) /\ nth_error l i = Some c.
Proof.
  revert i; induction l as [|b l IH]; intros i; cbn; [discriminate|].
  destruct (Byte.eqb b c) eqn:E.
  - intros H; inversion H; subst. apply Byte.byte_dec_bl in E; subst.
    rewrite firstn_O. cbn. repeat split; auto; lia.
  - destruct (memchr c l) as [j|] eqn:Ej; [|discriminate].
    intros H; inversion H; subst. destruct (IH j eq_refl) as (H1 & H2 & H3).
    rewrite firstn_cons. cbn. repeat split; auto; [lia|].
    intros [->|Hin]; [rewrite Byte.byte_dec_lb in E; auto; discriminate|auto].
Qed.

Lemma memchr_app_hit c s r :
  ~ In c s -> memchr c (s ++ c :: r) = Some (length s).
Proof.
  induction s as [|b s IH]; cbn; intros Hn.
  - rewrite Byte.byte_dec_lb; auto.
  - destruct (Byte.eqb b c) eqn:E.
    + apply Byte.byte_dec_bl in E. subst. tauto.
    + rewrite IH; auto.
Qed.

Lemma memchr_miss c s : ~ In c s -> memchr c s = None.
Proof.
  induction s as [|b s IH]; cbn; intros Hn; auto.
  destruct (Byte.eqb b c) eqn:E.
  - apply Byte.byte_dec_bl in E. subst. tauto.
  - rewrite IH; auto.
Qed.

Lemma length_name n s : (length s <= n)%nat -> length (Encode.name n s) = n.
Proof. intros. unfold Encode.name. rewrite length_app, repeat_length. lia. Qed.

(** What [convert_string] accepts it gets back from the null-padded slot. *)
Lemma convert_string_name n a s :
  length a = n -> convert_string a = inl s ->
  (length s <= n)%nat /\ convert_string (Encode.name n s) = inl s.
Proof.
  intros Hl. unfold convert_string, from_utf8.
  destruct (memchr x00 a) as [i|] eqn:Em.
  - apply memchr_Some in Em as (Hi & Hn & _).
    destruct (utf8_valid (firstn i a)) eqn:Ev; intros H; inversion H; subst; clear H.
    rewrite length_firstn. split; [lia|].
    unfold Encode.name. rewrite length_firstn.
    replace (length a - Nat.min i (length a))%nat with (S (length a - i - 1)) by lia.
    cbn [repeat]. rewrite memchr_app_hit by auto.
    rewrite firstn_app, length_firstn, Nat.min_l, Nat.sub_diag, firstn_O, app_nil_r by lia.
    rewrite firstn_firstn, Nat.min_id, Ev. reflexivity.
  - apply memchr_None in Em.
    destruct (utf8_valid a) eqn:Ev; intros H; inversion H; subst; clear H.
    split; [lia|]. unfold Encode.name. rewrite Nat.sub_diag. cbn [repeat].
    rewrite app_nil_r, memchr_miss, Ev by auto. reflexivity.
Qed.

(** ** Reading back what the encoder writes *)

Lemma firstn_le_bytes (n : nat) (z : Z) : firstn n (le_bytes n z) = le_bytes n z.
Proof. rewrite <- (length_le_bytes n z) at 1. apply firstn_all. Qed.
Lemma lift_inl {S A} (x : A) (s : S) : lift (inl x) s = Ok x s.
Proof. reflexivity. Qed.
Ltac rt_inv :=
  repeat match goal with
  | H : bind _ _ _ = Ok _ _ |- _ => apply bind_Ok in H as (? & ? & ? & H)
  | H : read_type _ _ _ = Ok _ _ |- _ => apply read_type_slice_Ok in H as (? & -> & ->)
  | H : lift _ _ = Ok _ _ |- _ => apply lift_Ok in H as (? & ->)
  | H : ensure _ _ _ = Ok _ _ |- _ => apply ensure_Ok in H as (? & ->)
  | H : ret _ _ = Ok _ _ |- _ => inversion H; subst; clear H
  end.
Ltac rt_fields :=
  repeat first
    [ rewrite <- !app_assoc
    | rewrite !skipn_le_bytes_app
    | rewrite !firstn_le_bytes_app
    | rewrite !firstn_le_bytes
    | rewrite !le_le_bytes_firstn
    | rewrite !signed_le_le_bytes_firstn by lia ].
Ltac rt_len := cbn; rewrite ?length_app, ?length_le_bytes; reflexivity.
Lemma rt_read_vertex : roundtrips read_vertex Encode.vertex.
Proof.
  intros s x s' t H. unfold read_vertex in *. rt_inv.
  match goal with Hf : convert_flags _ _ = inl _ |- _ =>
    pose proof (convert_flags_inl _ _ _ Hf) as Efl end.
  subst.
  erewrite bind_step by (apply read_type_slice_app; rt_len).
  unfold Encode.vertex, De.Vertex.of_bytes, take_f32x3, enc_f32x3, enc_u,
    take_u, take_s in *; cbn in *.
  rt_fields.
  match goal with Hf : convert_flags _ _ = inl _ |- _ => rewrite Hf end.
  reflexivity.
Qed.

Arguments Encode.name : simpl never.

Lemma firstn_name_app n s t :
  (length s <= n)%nat -> firstn n (Encode.name n s ++ t) = Encode.name n s.
Proof.
  intros H. rewrite firstn_app, length_name, Nat.sub_diag, firstn_O, app_nil_r by auto.
  rewrite <- (length_name n s) at 1 by auto. apply firstn_all.
Qed.

Lemma skipn_name_app n s t :
  (length s <= n)%nat -> skipn n (Encode.name n s ++ t) = t.
Proof.
  intros H. rewrite skipn_app, length_name, Nat.sub_diag, skipn_O by auto.
  rewrite <- (length_name n s) at 1 by auto. rewrite skipn_all. reflexivity.
Qed.

Lemma firstn_name n s :
  (length s <= n)%nat -> firstn n (Encode.name n s) = Encode.name n s.
Proof. intros H. rewrite <- (length_name n s) at 1 by auto. apply firstn_all. Qed.

Ltac rt_sizes :=
  unfold De.Header.size, De.Vertex.size, De.Triangle.size, De.GroupPrefix.size,
    De.GroupSuffix.size, De.Material.size, De.KeyFrameData.size,
    De.KeyFrameRot.size, De.KeyFramePos.size, De.JointPrefix.size,
    De.CommentPrefix.size, De.VertexEx1.size, De.VertexEx2.size,
    De.VertexEx3.size, De.JointEx.size, De.ModelEx.size in *.

Ltac rt_names :=
  repeat match goal with
  | Hn : convert_string (firstn ?n ?x) = inl ?s |- _ =>
    let L := fresh "L" in let C := fresh "C" in
    destruct (convert_string_name n (firstn n x) s) as [L C];
    [ repeat (rewrite length_firstn || rewrite length_skipn); lia
    | exact Hn | clear Hn ]
  end.

Ltac rt_fields_names :=
  repeat first
    [ progress rt_fields
    | match goal with |- context [firstn ?n (Encode.name ?n ?s ++ ?t)] =>
        rewrite (firstn_name_app n s t) by lia end
    | match goal with |- context [skipn ?n (Encode.name ?n ?s ++ ?t)] =>
        rewrite (skipn_name_app n s t) by lia end
    | match goal with |- context [firstn ?n (Encode.name ?n ?s)] =>
        rewrite (firstn_name n s) by lia end ].

Ltac rt_flags :=
  repeat match goal with
  | Hf : convert_flags _ _ = inl ?f |- _ =>
    is_var f; pose proof (convert_flags_inl _ _ _ Hf); subst f
  end.

Ltac rt_close :=
  repeat match goal with
  | C : convert_string ?a = inl _ |- context [convert_string ?a] => rewrite C
  | C : convert_flags ?a ?b = inl _ |- context [convert_flags ?a ?b] => rewrite C
  end;
  reflexivity.

Lemma mod_256_u16 z : (z mod 256) mod 2 ^ (8 * Z.of_nat 2) mod 256 = z mod 256.
Proof.
  pose proof (Z.mod_pos_bound z 256). rewrite (Z.mod_small (z mod 256)) by (cbn; lia).
  apply Z.mod_mod. lia.
Qed.

Lemma length_enc_f32x3 v : length (enc_f32x3 v) = 12%nat.
Proof. destruct v as [[? ?] ?]. reflexivity. Qed.
Lemma length_enc_f32x4 v : length (enc_f32x4 v) = 16%nat.
Proof. destruct v as [[[? ?] ?] ?]. reflexivity. Qed.
Lemma length_material m :
  (length (Material.name m) <= 32)%nat -> (length (Material.texture m) <= 128)%nat ->
  (length (Material.alphamap m) <= 128)%nat -> length (Encode.material m) = 361%nat.
Proof.
  intros. unfold Encode.material, enc_u.
  rewrite !length_app, !length_name, !length_enc_f32x4, !length_le_bytes by auto.
  reflexivity.
Qed.

Lemma rt_read_triangle : roundtrips read_triangle Encode.triangle.
Proof.
  intros s x s' t H. unfold read_triangle in *. rt_inv. rt_flags. rt_sizes.
  erewrite bind_step by (apply read_type_slice_app; rt_len).
  unfold Encode.triangle, De.Triangle.of_bytes, Encode.u16x3, Encode.f32x3x3,
    take_f32x3, enc_f32x3, enc_u, take_u, take_s in *; cbn in *.
  rt_fields.
  rewrite le_le_bytes, mod_256_u16.
  match goal with Hf : convert_flags _ _ = inl _ |- _ => rewrite Hf end.
  reflexivity.
Qed.

Lemma rt_read_material : roundtrips read_material Encode.material.
Proof.
  intros s x s' t H. unfold read_material, convert_path in *. rt_inv. rt_sizes.
  unfold De.Material.of_bytes, take, take_f32x4, take_u, take_s in *|-; cbn in *|-.
  rt_names.
  erewrite bind_step.
  2:{ apply read_type_slice_app. apply length_material; cbn; lia. }
  unfold Encode.material, De.Material.of_bytes, take, take_f32x4, enc_f32x4, enc_u,
    take_u, take_s in *; cbn in *.
  rt_fields_names.
  rt_close.
Qed.

Lemma length_bytes_i8x3 v : length (Encode.bytes_i8x3 v) = 3%nat.
Proof. destruct v as [[? ?] ?]. reflexivity. Qed.

Ltac rt_len_simple :=
  repeat (rewrite length_app || rewrite length_le_bytes || rewrite length_enc_f32x3
          || rewrite length_enc_f32x4 || rewrite length_bytes_i8x3);
  reflexivity.

Ltac rt_simple enc :=
  let s := fresh "s" in let x := fresh "x" in let s' := fresh "s'" in
  let t := fresh "t" in let H := fresh "H" in
  intros s x s' t H; rt_inv; rt_sizes;
  first
    [ erewrite bind_step by
        (apply read_type_slice_app; unfold enc, enc_u; rt_len_simple)
    | rewrite read_type_slice_app by (unfold enc, enc_u; rt_len_simple) ];
  unfold enc, Encode.bytes_i8x3, take_f32x3, enc_f32x3, enc_u, take_u, take_s in *;
  cbn in *; rt_fields; reflexivity.

Lemma rt_read_key_frame_data : roundtrips read_key_frame_data Encode.key_frame_data.
Proof. unfold read_key_frame_data, De.KeyFrameData.of_bytes. rt_simple Encode.key_frame_data. Qed.

Lemma rt_read_key_frame_rot : roundtrips read_key_frame_rot Encode.key_frame_rot.
Proof. unfold read_key_frame_rot, De.KeyFrameRot.of_bytes. rt_simple Encode.key_frame_rot. Qed.

Lemma rt_read_key_frame_pos : roundtrips read_key_frame_pos Encode.key_frame_pos.
Proof. unfold read_key_frame_pos, De.KeyFramePos.of_bytes. rt_simple Encode.key_frame_pos. Qed.

Lemma rt_read_vertex_ex_1 : roundtrips read_vertex_ex_1 Encode.vertex_ex_1.
Proof. unfold read_vertex_ex_1, De.VertexEx1.of_bytes. rt_simple Encode.vertex_ex_1. Qed.

Lemma rt_read_vertex_ex_2 : roundtrips read_vertex_ex_2 Encode.vertex_ex_2.
Proof. unfold read_vertex_ex_2, De.VertexEx2.of_bytes. rt_simple Encode.vertex_ex_2. Qed.

Lemma rt_read_vertex_ex_3 : roundtrips read_vertex_ex_3 Encode.vertex_ex_3.
Proof. unfold read_vertex_ex_3, De.VertexEx3.of_bytes. rt_simple Encode.vertex_ex_3. Qed.

Lemma rt_read_joint_ex :
  roundtrips read_joint_ex (fun e => enc_f32x3 (JointEx.color e)).
Proof. unfold read_joint_ex, De.JointEx.of_bytes. rt_simple enc_f32x3. Qed.

Lemma rt_read_model_ex :
  roundtrips read_model_ex (fun e => enc_u 4 (ModelEx.joint_size e) ++
    enc_u 4 (ModelEx.transparency_mode e) ++ enc_u 4 (ModelEx.alpha_ref e)).
Proof. unfold read_model_ex, De.ModelEx.of_bytes. rt_simple enc_u. Qed.

Lemma rt_read_u16 : roundtrips read_u16 (enc_u 2).
Proof. unfold read_u16, De.u16_of_bytes. rt_simple enc_u. Qed.

Lemma rt_read_u32 : roundtrips read_u32 (enc_u 4).
Proof. unfold read_u32, De.u32_of_bytes. rt_simple enc_u. Qed.

Lemma rt_read_i32 : roundtrips read_i32 (enc_u 4).
Proof. unfold read_i32, De.i32_of_bytes. rt_simple enc_u. Qed.

(** ** Lists of records *)

Lemma rt_read_vec_nat {A} (f : M SliceReader.SliceReader A) enc :
  roundtrips f enc -> forall n s xs s' t,
  read_vec_nat n f s = Ok xs s' ->
  length xs = n /\
  read_vec_nat n f (SliceReader.new (flat_map enc xs ++ t)) = Ok xs (SliceReader.new t).
Proof.
  intros Hf n. induction n as [|n IH]; intros s xs s' t H; cbn in H |- *.
  - inversion H; subst. auto.
  - apply bind_Ok in H as (x & s1 & H1 & H). apply bind_Ok in H as (ys & s2 & H2 & H).
    inversion H; subst; clear H.
    destruct (IH _ _ _ t H2) as [Hl Hr]. split; [cbn; auto|].
    cbn. rewrite <- app_assoc. erewrite bind_step by (eapply Hf; eauto).
    erewrite bind_step by exact Hr. reflexivity.
Qed.

Lemma rt_read_vec {A} (f : M SliceReader.SliceReader A) enc len s xs s' :
  roundtrips f enc -> read_vec len f s = Ok xs s' ->
  length xs = Z.to_nat len /\
  forall t, read_vec (Z.of_nat (length xs)) f (SliceReader.new (flat_map enc xs ++ t))
            = Ok xs (SliceReader.new t).
Proof.
  intros Hf H. unfold read_vec in *.
  destruct (rt_read_vec_nat f enc Hf _ _ _ _ [] H) as [Hl _].
  split; [exact Hl|]. intros t. rewrite Nat2Z.id, Hl.
  eapply rt_read_vec_nat; eauto.
Qed.

Lemma read_u16_range (s s' : SliceReader.SliceReader) x : read_u16 s = Ok x s' -> 0 <= x < 2 ^ 16.
Proof.
  unfold read_u16, De.u16_of_bytes. intros H.
  apply read_type_slice_Ok in H as (Hn & -> & _). unfold take_u; cbn [fst].
  apply (le_firstn_range 2).
Qed.

Lemma read_u32_range (s s' : SliceReader.SliceReader) x : read_u32 s = Ok x s' -> 0 <= x < 2 ^ 32.
Proof.
  unfold read_u32, De.u32_of_bytes. intros H.
  apply read_type_slice_Ok in H as (Hn & -> & _). unfold take_u; cbn [fst].
  apply (le_firstn_range 4).
Qed.

Lemma rt_section {A} (f : M SliceReader.SliceReader A) enc :
  roundtrips f enc ->
  roundtrips (len <- read_u16 ;; read_vec len f) (Encode.section enc).
Proof.
  intros Hf s xs s' t H. apply bind_Ok in H as (len & s1 & H1 & H).
  pose proof (read_u16_range _ _ _ H1) as Hr.
  destruct (rt_read_vec f enc len _ _ _ Hf H) as [Hl Hrt].
  assert (E : Z.of_nat (length xs) = len) by (rewrite Hl; lia).
  unfold Encode.section. rewrite <- app_assoc, E.
  erewrite bind_step by (eapply rt_read_u16; eauto).
  rewrite <- E. apply Hrt.
Qed.

(** ** Groups, comments and joints *)

Lemma length_group_prefix g :
  (length (Group.name g) <= 32)%nat -> length (Encode.group_prefix g) = 35%nat.
Proof.
  intros. unfold Encode.group_prefix, enc_u.
  rewrite !length_app, length_name, !length_le_bytes by auto. reflexivity.
Qed.

Lemma rt_read_group : roundtrips read_group Encode.group.
Proof.
  intros s g s' t H. unfold read_group in *. rt_inv. rt_flags. rt_sizes.
  unfold De.GroupPrefix.of_bytes, take, take_u, take_s in *|-; cbn in *|-.
  rt_names.
  match goal with Hv : read_vec _ read_u16 _ = Ok _ _ |- _ =>
    destruct (rt_read_vec _ _ _ _ _ _ rt_read_u16 Hv) as [Hl Hrt] end.
  unfold Encode.group. rewrite <- app_assoc.
  erewrite bind_step.
  2:{ apply read_type_slice_app. apply length_group_prefix. cbn. lia. }
  unfold Encode.group_prefix, De.GroupPrefix.of_bytes, take, take_u, take_s in *; cbn.
  rt_fields_names.
  match goal with
  | Hf : convert_flags ?a ?b = inl _ |- _ => erewrite bind_step by (rewrite Hf; apply lift_inl)
  end.
  match goal with
  | C : convert_string ?a = inl _ |- _ => erewrite bind_step by (rewrite C; apply lift_inl)
  end.
  rewrite le_le_bytes, Z.mod_small.
  2:{ pose proof (le_firstn_range 2 (skipn 32 (skipn 1 (firstn 35 (SliceReader.slice s))))).
      lia. }
  erewrite bind_step by apply Hrt.
  erewrite bind_step by (apply read_type_slice_app; apply length_le_bytes).
  unfold De.GroupSuffix.of_bytes, take_s. cbn.
  unfold enc_u; rewrite firstn_le_bytes, signed_le_le_bytes_firstn by lia. reflexivity.
Qed.

Lemma signed_range (w u : Z) :
  0 < w -> 0 <= u < 2 ^ w -> - 2 ^ (w - 1) <= signed w u < 2 ^ (w - 1).
Proof.
  intros Hw Hu. assert (E : 2 ^ w = 2 * 2 ^ (w - 1)).
  { rewrite <- Z.pow_succ_r by lia. f_equal. lia. }
  unfold signed. destruct (Z.ltb_spec u (2 ^ (w - 1))); lia.
Qed.

Lemma usize_of_i32_range (x : Z) : 0 <= usize_of_i32 x < 2 ^ 64.
Proof. apply Z.mod_pos_bound. lia. Qed.

(** An [i32] length cast to [usize] and written back as four bytes reads back. *)
Lemma signed_le_bytes_usize (x : Z) :
  - 2 ^ 31 <= x < 2 ^ 31 -> signed 32 (le (le_bytes 4 (usize_of_i32 x))) = x.
Proof.
  intros Hx. rewrite le_le_bytes. unfold usize_of_i32. change (8 * Z.of_nat 4) with 32.
  rewrite Z.mod_mod_divide by (exists (2 ^ 32); reflexivity).
  unfold signed. change (32 - 1) with 31.
  destruct (Z.leb_spec 0 x).
  - rewrite Z.mod_small by lia. rewrite (proj2 (Z.ltb_lt _ _)) by lia. reflexivity.
  - replace (x mod 2 ^ 32) with (x + 2 ^ 32).
    + rewrite (proj2 (Z.ltb_ge _ _)) by lia. ring.
    + rewrite <- (Z.mod_small (x + 2 ^ 32) (2 ^ 32)) by lia.
      rewrite <- (Z.mod_add x 1 (2 ^ 32)) by lia. reflexivity.
Qed.

Lemma rt_read_string (len : Z) (s s' : SliceReader.SliceReader) x t :
  0 <= len -> read_string len s = Ok x s' ->
  Z.of_nat (length x) = len /\
  read_string len (SliceReader.new (x ++ t)) = Ok x (SliceReader.new t).
Proof.
  intros Hlen H. unfold read_string in *.
  apply bind_Ok in H as (bs & s1 & H1 & H). apply lift_Ok in H as (Hu & ->).
  destruct s as [l]. rewrite read_bytes_slice in H1.
  destruct (Z.gtb_spec len (Z.of_nat (length l))); [discriminate|].
  inversion H1; subst; clear H1.
  unfold from_utf8 in Hu. destruct (utf8_valid _) eqn:Hv; inversion Hu; subst; clear Hu.
  assert (Hl : Z.of_nat (length (firstn (Z.to_nat len) l)) = len).
  { rewrite length_firstn. lia. }
  split; [exact Hl|].
  set (bs := firstn (Z.to_nat len) l) in *. clearbody bs.
  unfold bind. rewrite read_bytes_slice, length_app.
  destruct (Z.gtb_spec len (Z.of_nat (length bs + length t))); [lia|].
  replace (Z.to_nat len) with (length bs) by lia.
  rewrite firstn_app, skipn_app, Nat.sub_diag, firstn_O, skipn_O, app_nil_r,
    firstn_all, skipn_all. cbn.
  unfold from_utf8. rewrite Hv. reflexivity.
Qed.

Lemma signed_le_firstn_range (n : nat) (l : list byte) :
  (0 < n)%nat ->
  - 2 ^ (8 * Z.of_nat n - 1) <= signed (8 * Z.of_nat n) (le (firstn n l))
  < 2 ^ (8 * Z.of_nat n - 1).
Proof. intros. apply signed_range; [lia | apply le_firstn_range]. Qed.

Lemma rt_read_comment : roundtrips read_comment Encode.comment.
Proof.
  intros s c s' t H. unfold read_comment in *.
  apply bind_Ok in H as (p & s1 & Hp & H). apply bind_Ok in H as (cm & s2 & Hs & H).
  inversion H; subst; clear H.
  apply read_type_slice_Ok in Hp as (_ & -> & ->). rt_sizes.
  destruct (rt_read_string _ _ _ _ t (proj1 (usize_of_i32_range _)) Hs) as [Hl Hrt].
  unfold Encode.comment. rewrite <- app_assoc.
  erewrite bind_step.
  2:{ apply read_type_slice_app. unfold Encode.comment_prefix, enc_u.
      rewrite length_app, !length_le_bytes. reflexivity. }
  unfold Encode.comment_prefix, De.CommentPrefix.of_bytes, take_s, enc_u in *.
  cbn - [signed] in *. rewrite Hl. rewrite firstn_le_bytes_app, skipn_le_bytes_app, firstn_le_bytes.
  change (8 * Z.of_nat 4) with 32 in *.
  rewrite signed_le_bytes_usize.
  2:{ pose proof (signed_le_firstn_range 4
        (skipn 4 (firstn 8 (SliceReader.slice s))) ltac:(lia)). cbn in *. lia. }
  erewrite bind_step by exact Hrt.
  rewrite (signed_le_le_bytes_firstn 4 32) by lia. reflexivity.
Qed.

Lemma length_joint_prefix j :
  (length (Joint.name j) <= 32)%nat -> (length (Joint.parent_name j) <= 32)%nat ->
  length (Encode.joint_prefix j) = 93%nat.
Proof.
  intros. unfold Encode.joint_prefix, enc_u.
  rewrite !length_app, !length_name, !length_enc_f32x3, !length_le_bytes by auto.
  reflexivity.
Qed.

Lemma count_u16 (n : nat) (l : list byte) :
  n = Z.to_nat (le (firstn 2 l)) -> le (le_bytes 2 (Z.of_nat n)) = Z.of_nat n.
Proof.
  intros ->. pose proof (le_firstn_range 2 l). rewrite le_le_bytes, Z.mod_small; lia.
Qed.

Ltac rt_lifts :=
  repeat match goal with
  | Hf : convert_flags ?a ?b = inl _ |- context [lift (convert_flags ?a ?b)] =>
    erewrite bind_step by (rewrite Hf; apply lift_inl)
  | C : convert_string ?a = inl _ |- context [lift (convert_string ?a)] =>
    erewrite bind_step by (rewrite C; apply lift_inl)
  end.

Lemma rt_read_joint : roundtrips read_joint Encode.joint.
Proof.
  intros s j s' t H. unfold read_joint in *. rt_inv. rt_flags. rt_sizes.
  unfold De.JointPrefix.of_bytes, take, take_u, take_s, take_f32x3 in *|-; cbn in *|-.
  rt_names.
  match goal with Hv : read_vec _ read_key_frame_rot _ = Ok _ _ |- _ =>
    destruct (rt_read_vec _ _ _ _ _ _ rt_read_key_frame_rot Hv) as [Hl1 Hrt1] end.
  match goal with Hv : read_vec _ read_key_frame_pos _ = Ok _ _ |- _ =>
    destruct (rt_read_vec _ _ _ _ _ _ rt_read_key_frame_pos Hv) as [Hl2 Hrt2] end.
  unfold Encode.joint. rewrite <- app_assoc.
  erewrite bind_step.
  2:{ apply read_type_slice_app. apply length_joint_prefix; cbn; lia. }
  unfold Encode.joint_prefix, De.JointPrefix.of_bytes, take, take_u, take_s,
    take_f32x3, enc_f32x3, enc_u in *; cbn.
  rt_fields_names. rt_lifts.
  rewrite (count_u16 _ _ Hl1), (count_u16 _ _ Hl2).
  erewrite bind_step by apply Hrt1. erewrite bind_step by apply Hrt2.
  reflexivity.
Qed.


Lemma le_bytes_usize_of_i32 (x : Z) : le_bytes 4 (usize_of_i32 x) = le_bytes 4 x.
Proof.
  unfold usize_of_i32. rewrite <- (le_bytes_mod 4 (x mod 2 ^ 64)), <- (le_bytes_mod 4 x).
  f_equal. apply Z.mod_mod_divide. exists (2 ^ 32). reflexivity.
Qed.

Lemma read_i32_range (s s' : SliceReader.SliceReader) x :
  read_i32 s = Ok x s' -> - 2 ^ 31 <= x < 2 ^ 31.
Proof.
  unfold read_i32, De.i32_of_bytes. intros H.
  apply read_type_slice_Ok in H as (Hn & -> & _). unfold take_s; cbn [fst].
  apply (signed_le_firstn_range 4). lia.
Qed.

Lemma rt_comment_list_u32 (s s1 s2 : SliceReader.SliceReader) len cs t :
  read_u32 s = Ok len s1 -> read_vec len read_comment s1 = Ok cs s2 ->
  read_u32 (SliceReader.new (Encode.comment_list cs ++ t))
    = Ok len (SliceReader.new (flat_map Encode.comment cs ++ t)) /\
  read_vec len read_comment (SliceReader.new (flat_map Encode.comment cs ++ t))
    = Ok cs (SliceReader.new t).
Proof.
  intros H1 H2. pose proof (read_u32_range _ _ _ H1) as Hr.
  destruct (rt_read_vec _ _ _ _ _ _ rt_read_comment H2) as [Hl Hrt].
  assert (E : Z.of_nat (length cs) = len) by (rewrite Hl; lia).
  unfold Encode.comment_list. rewrite <- app_assoc, E. split.
  - eapply rt_read_u32; eauto.
  - rewrite <- E at 1. apply Hrt.
Qed.

Lemma rt_comment_list_i32 (s s1 s2 : SliceReader.SliceReader) len cs t :
  read_i32 s = Ok len s1 -> read_vec (usize_of_i32 len) read_comment s1 = Ok cs s2 ->
  read_i32 (SliceReader.new (Encode.comment_list cs ++ t))
    = Ok len (SliceReader.new (flat_map Encode.comment cs ++ t)) /\
  read_vec (usize_of_i32 len) read_comment (SliceReader.new (flat_map Encode.comment cs ++ t))
    = Ok cs (SliceReader.new t).
Proof.
  intros H1 H2.
  destruct (rt_read_vec _ _ _ _ _ _ rt_read_comment H2) as [Hl Hrt].
  assert (E : Z.of_nat (length cs) = usize_of_i32 len)
    by (rewrite Hl; pose proof (usize_of_i32_range len); lia).
  unfold Encode.comment_list. rewrite <- app_assoc, E. split.
  - unfold enc_u. rewrite le_bytes_usize_of_i32. eapply rt_read_i32; eauto.
  - rewrite <- E at 1. apply Hrt.
Qed.

Lemma read_i32_enc (k : Z) (t : list byte) :
  read_i32 (SliceReader.new (enc_u 4 k ++ t))
    = Ok (De.i32_of_bytes (enc_u 4 k)) (SliceReader.new t).
Proof. apply read_type_slice_app. apply length_le_bytes. Qed.

Lemma rt_model_comment (s s1 s2 : SliceReader.SliceReader) len mc t :
  read_i32 s = Ok len s1 -> read_model_comment (usize_of_i32 len) s1 = Ok mc s2 ->
  exists len' rest,
    read_i32 (SliceReader.new (Encode.model_comment mc ++ t)) = Ok len' rest /\
    read_model_comment (usize_of_i32 len') rest = Ok mc (SliceReader.new t).
Proof.
  intros H1 H2. unfold read_model_comment in H2.
  destruct (usize_of_i32 len =? 0).
  - inversion H2; subst. cbn [Encode.model_comment].
    do 2 eexists. split; [apply read_i32_enc|]. reflexivity.
  - destruct (usize_of_i32 len =? 1); [|discriminate].
    apply bind_Ok in H2 as (c & s3 & H3 & H4). inversion H4; subst; clear H4.
    cbn [Encode.model_comment]. rewrite <- app_assoc.
    do 2 eexists. split; [apply read_i32_enc|].
    change (De.i32_of_bytes (enc_u 4 1)) with 1. cbn - [read_comment].
    erewrite bind_step by (eapply rt_read_comment; eauto). reflexivity.
Qed.

Lemma ensure_true {S} msg (s : S) : ensure true msg s = Ok tt s.
Proof. reflexivity. Qed.

Lemma rt_read_comments : roundtrips read_comments Encode.comments.
Proof.
  intros s c s' t H. unfold read_comments in *.
  apply bind_Ok in H as (sv & s1 & H1 & H).
  apply bind_Ok in H as (u & s2 & H2 & H). apply ensure_Ok in H2 as (Hsv & ->).
  apply bind_Ok in H as (l1 & s3 & H3 & H). apply bind_Ok in H as (gc & s4 & H4 & H).
  apply bind_Ok in H as (l2 & s5 & H5 & H). apply bind_Ok in H as (mc & s6 & H6 & H).
  apply bind_Ok in H as (l3 & s7 & H7 & H). apply bind_Ok in H as (jc & s8 & H8 & H).
  apply bind_Ok in H as (l4 & s9 & H9 & H). apply bind_Ok in H as (mdl & s10 & H10 & H).
  inversion H; subst; clear H.
  unfold Encode.comments. cbn [Comments.sub_version Comments.group_comments
    Comments.material_comments Comments.joint_comments Comments.model_comment].
  rewrite <- !app_assoc.
  erewrite bind_step by (eapply rt_read_i32; eauto).
  rewrite Hsv. erewrite bind_step by apply ensure_true.
  destruct (rt_comment_list_u32 _ _ _ _ _
    (Encode.comment_list mc ++ Encode.comment_list jc ++ Encode.model_comment mdl ++ t)
    H3 H4) as [E1 E2].
  erewrite bind_step by exact E1. erewrite bind_step by exact E2.
  destruct (rt_comment_list_i32 _ _ _ _ _
    (Encode.comment_list jc ++ Encode.model_comment mdl ++ t) H5 H6) as [E3 E4].
  erewrite bind_step by exact E3. erewrite bind_step by exact E4.
  destruct (rt_comment_list_i32 _ _ _ _ _ (Encode.model_comment mdl ++ t) H7 H8)
    as [E5 E6].
  erewrite bind_step by exact E5. erewrite bind_step by exact E6.
  destruct (rt_model_comment _ _ _ _ _ t H9 H10) as (l' & r & E7 & E8).
  erewrite bind_step by exact E7. erewrite bind_step by exact E8.
  reflexivity.
Qed.


(** ** Header, ex-info sections and the whole model *)
Lemma rt_read_vec_len {A} (f : M SliceReader.SliceReader A) enc len s xs s' t :
  roundtrips f enc -> read_vec len f s = Ok xs s' ->
  read_vec len f (SliceReader.new (flat_map enc xs ++ t)) = Ok xs (SliceReader.new t).
Proof. intros Hf H. eapply rt_read_vec_nat; eauto. Qed.

Lemma rt_read_header : roundtrips read_header Encode.header.
Proof.
  intros s h s' t H. unfold read_header in *. rt_inv.
  match goal with E : (_ =? 4) = true |- _ =>
    apply Z.eqb_eq in E; unfold De.Header.of_bytes, take_s in E; cbn in E; rewrite E end.
  unfold Encode.header. cbn [Header.version].
  erewrite bind_step by (apply read_type_slice_app; reflexivity).
  reflexivity.
Qed.

Lemma rt_read_vertex_ex_info len :
  roundtrips (read_vertex_ex_info len) Encode.vertex_ex_info.
Proof.
  intros s x s' t H. unfold read_vertex_ex_info in *.
  apply bind_Ok in H as (sv & s1 & H1 & H).
  destruct (sv =? 1); [|destruct (sv =? 2); [|destruct (sv =? 3); [|discriminate]]];
    apply bind_Ok in H as (v & s2 & H2 & H); inversion H; subst; clear H;
    cbn [Encode.vertex_ex_info]; rewrite <- app_assoc;
    erewrite bind_step by apply read_i32_enc.
  - change (De.i32_of_bytes (enc_u 4 1)) with 1. cbn - [read_vec].
    erewrite bind_step by (eapply rt_read_vec_len; [apply rt_read_vertex_ex_1 | eauto]).
    reflexivity.
  - change (De.i32_of_bytes (enc_u 4 2)) with 2. cbn - [read_vec].
    erewrite bind_step by (eapply rt_read_vec_len; [apply rt_read_vertex_ex_2 | eauto]).
    reflexivity.
  - change (De.i32_of_bytes (enc_u 4 3)) with 3. cbn - [read_vec].
    erewrite bind_step by (eapply rt_read_vec_len; [apply rt_read_vertex_ex_3 | eauto]).
    reflexivity.
Qed.

Lemma rt_read_joint_ex_info len :
  roundtrips (read_joint_ex_info len) Encode.joint_ex_info.
Proof.
  intros s x s' t H. unfold read_joint_ex_info in *.
  apply bind_Ok in H as (sv & s1 & H1 & H).
  apply bind_Ok in H as (u & s2 & H2 & H). apply ensure_Ok in H2 as (Hsv & ->).
  apply bind_Ok in H as (v & s3 & H3 & H). inversion H; subst; clear H.
  unfold Encode.joint_ex_info. cbn [JointExInfo.sub_version JointExInfo.joint_ex].
  rewrite <- app_assoc.
  erewrite bind_step by (eapply rt_read_i32; eauto).
  rewrite Hsv. erewrite bind_step by apply ensure_true.
  erewrite bind_step by (eapply rt_read_vec_len; [apply rt_read_joint_ex | eauto]).
  reflexivity.
Qed.

Lemma rt_read_model_ex_info : roundtrips read_model_ex_info Encode.model_ex_info.
Proof.
  intros s x s' t H. unfold read_model_ex_info in *.
  apply bind_Ok in H as (sv & s1 & H1 & H).
  apply bind_Ok in H as (u & s2 & H2 & H). apply ensure_Ok in H2 as (Hsv & ->).
  apply bind_Ok in H as (v & s3 & H3 & H). inversion H; subst; clear H.
  unfold Encode.model_ex_info. cbn [ModelExInfo.sub_version ModelExInfo.model_ex].
  rewrite <- app_assoc.
  erewrite bind_step by (eapply rt_read_i32; eauto).
  rewrite Hsv. erewrite bind_step by apply ensure_true.
  erewrite bind_step by (eapply rt_read_model_ex; eauto).
  reflexivity.
Qed.

Lemma rt_read_model : roundtrips read_model Encode.model.
Proof.
  intros s m s' t H. unfold read_model in *.
  apply bind_Ok in H as (hd & s1 & H1 & H). apply bind_Ok in H as (vs & s2 & H2 & H).
  apply bind_Ok in H as (ts & s3 & H3 & H). apply bind_Ok in H as (gs & s4 & H4 & H).
  apply bind_Ok in H as (ms & s5 & H5 & H). apply bind_Ok in H as (kd & s6 & H6 & H).
  apply bind_Ok in H as (js & s7 & H7 & H). apply bind_Ok in H as (cs & s8 & H8 & H).
  apply bind_Ok in H as (ve & s9 & H9 & H). apply bind_Ok in H as (je & s10 & H10 & H).
  apply bind_Ok in H as (me & s11 & H11 & H). inversion H; subst; clear H.
  unfold Encode.model, Encode.core. cbn [Model.header Model.vertices Model.triangles
    Model.groups Model.materials Model.key_frame_data Model.joints Model.comments
    Model.vertex_ex_info Model.joint_ex_info Model.model_ex_info].
  rewrite <- !app_assoc.
  erewrite bind_step by (eapply rt_read_header; eauto).
  erewrite bind_step by (eapply (rt_section _ _ rt_read_vertex); eauto).
  erewrite bind_step by (eapply (rt_section _ _ rt_read_triangle); eauto).
  erewrite bind_step by (eapply (rt_section _ _ rt_read_group); eauto).
  erewrite bind_step by (eapply (rt_section _ _ rt_read_material); eauto).
  erewrite bind_step by (eapply rt_read_key_frame_data; eauto).
  erewrite bind_step by (eapply (rt_section _ _ rt_read_joint); eauto).
  erewrite bind_step by (eapply rt_read_comments; eauto).
  erewrite bind_step by (eapply rt_read_vertex_ex_info; eauto).
  erewrite bind_step by (eapply rt_read_joint_ex_info; eauto).
  erewrite bind_step by (eapply rt_read_model_ex_info; eauto).
  reflexivity.
Qed.


(** ** Decoding a re-encoded prefix *)

Lemma read_comments_prefix {B} (s s' : SliceReader.SliceReader) c
    (K : Comments.t -> M SliceReader.SliceReader B) t :
  read_comments s = Ok c s' ->
  bind read_comments K (SliceReader.new (Encode.comments_head c ++ t)) =
  (l <- read_i32 ;; mc <- read_model_comment (usize_of_i32 l) ;;
   K (Comments.mk (Comments.sub_version c) (Comments.group_comments c)
        (Comments.material_comments c) (Comments.joint_comments c) mc))
    (SliceReader.new t).
Proof.
  intros H. unfold read_comments in *.
  apply bind_Ok in H as (sv & s1 & H1 & H).
  apply bind_Ok in H as (u & s2 & H2 & H). apply ensure_Ok in H2 as (Hsv & ->).
  apply bind_Ok in H as (l1 & s3 & H3 & H). apply bind_Ok in H as (gc & s4 & H4 & H).
  apply bind_Ok in H as (l2 & s5 & H5 & H). apply bind_Ok in H as (mc & s6 & H6 & H).
  apply bind_Ok in H as (l3 & s7 & H7 & H). apply bind_Ok in H as (jc & s8 & H8 & H).
  apply bind_Ok in H as (l4 & s9 & H9 & H). apply bind_Ok in H as (mdl & s10 & H10 & H).
  inversion H; subst; clear H.
  unfold Encode.comments_head. cbn [Comments.sub_version Comments.group_comments
    Comments.material_comments Comments.joint_comments].
  rewrite <- !app_assoc.
  destruct (rt_comment_list_u32 _ _ _ _ _
    (Encode.comment_list mc ++ Encode.comment_list jc ++ t) H3 H4) as [E1 E2].
  destruct (rt_comment_list_i32 _ _ _ _ _ (Encode.comment_list jc ++ t) H5 H6) as [E3 E4].
  destruct (rt_comment_list_i32 _ _ _ _ _ t H7 H8) as [E5 E6].
  unfold bind at 1 2 3 4 5 6 7 8 9 10 11.
  rewrite (rt_read_i32 _ _ _ _ H1). rewrite Hsv. cbn [ensure ret].
  rewrite E1, E2, E3, E4, E5, E6. unfold bind.
  destruct (read_i32 (SliceReader.new t)) as [l s0| |]; [|reflexivity|reflexivity].
  destruct (read_model_comment (usize_of_i32 l) s0); reflexivity.
Qed.

Lemma read_model_prefix (s s' : SliceReader.SliceReader) m t :
  read_model s = Ok m s' ->
  read_model (SliceReader.new (Encode.before_model_comment m ++ t)) =
  (l <- read_i32 ;; mc <- read_model_comment (usize_of_i32 l) ;;
   ve <- read_vertex_ex_info (Z.of_nat (length (Model.vertices m))) ;;
   je <- read_joint_ex_info (Z.of_nat (length (Model.joints m))) ;;
   me <- read_model_ex_info ;;
   ret (with_tail m mc ve je me)) (SliceReader.new t).
Proof.
  intros H. unfold read_model in *.
  apply bind_Ok in H as (hd & s1 & H1 & H). apply bind_Ok in H as (vs & s2 & H2 & H).
  apply bind_Ok in H as (ts & s3 & H3 & H). apply bind_Ok in H as (gs & s4 & H4 & H).
  apply bind_Ok in H as (ms & s5 & H5 & H). apply bind_Ok in H as (kd & s6 & H6 & H).
  apply bind_Ok in H as (js & s7 & H7 & H). apply bind_Ok in H as (cs & s8 & H8 & H).
  apply bind_Ok in H as (ve & s9 & H9 & H). apply bind_Ok in H as (je & s10 & H10 & H).
  apply bind_Ok in H as (me & s11 & H11 & H). inversion H; subst; clear H.
  unfold Encode.before_model_comment. cbn [Model.header Model.vertices Model.triangles
    Model.groups Model.materials Model.key_frame_data Model.joints Model.comments].
  rewrite <- !app_assoc.
  erewrite bind_step by (eapply rt_read_header; eauto).
  erewrite bind_step by (eapply (rt_section _ _ rt_read_vertex); eauto).
  erewrite bind_step by (eapply (rt_section _ _ rt_read_triangle); eauto).
  erewrite bind_step by (eapply (rt_section _ _ rt_read_group); eauto).
  erewrite bind_step by (eapply (rt_section _ _ rt_read_material); eauto).
  erewrite bind_step by (eapply rt_read_key_frame_data; eauto).
  erewrite bind_step by (eapply (rt_section _ _ rt_read_joint); eauto).
  erewrite read_comments_prefix by eauto. reflexivity.
Qed.

Lemma core_split m :
  Encode.core m = Encode.before_model_comment m ++
                  Encode.model_comment (Comments.model_comment (Model.comments m)).
Proof.
  unfold Encode.core, Encode.before_model_comment, Encode.comments, Encode.comments_head.
  rewrite <- !app_assoc. reflexivity.
Qed.

Lemma read_model_comments (s s' : SliceReader.SliceReader) m :
  read_model s = Ok m s' ->
  exists (s0 : SliceReader.SliceReader) l s1 s2, read_i32 s0 = Ok l s1 /\
    read_model_comment (usize_of_i32 l) s1 = Ok (Comments.model_comment (Model.comments m)) s2.
Proof.
  intros H. unfold read_model in H.
  apply bind_Ok in H as (hd & s1 & H1 & H). apply bind_Ok in H as (vs & s2 & H2 & H).
  apply bind_Ok in H as (ts & s3 & H3 & H). apply bind_Ok in H as (gs & s4 & H4 & H).
  apply bind_Ok in H as (ms & s5 & H5 & H). apply bind_Ok in H as (kd & s6 & H6 & H).
  apply bind_Ok in H as (js & s7 & H7 & H). apply bind_Ok in H as (cs & s8 & H8 & H).
  apply bind_Ok in H as (ve & s9 & H9 & H). apply bind_Ok in H as (je & s10 & H10 & H).
  apply bind_Ok in H as (me & s11 & H11 & H). inversion H; subst; clear H.
  cbn [Model.comments]. unfold read_comments in H8.
  apply bind_Ok in H8 as (sv & t1 & G1 & H). apply bind_Ok in H as (u & t2 & G2 & H).
  apply bind_Ok in H as (l1 & t3 & G3 & H). apply bind_Ok in H as (gc & t4 & G4 & H).
  apply bind_Ok in H as (l2 & t5 & G5 & H). apply bind_Ok in H as (mc & t6 & G6 & H).
  apply bind_Ok in H as (l3 & t7 & G7 & H). apply bind_Ok in H as (jc & t8 & G8 & H).
  apply bind_Ok in H as (l4 & t9 & G9 & H). apply bind_Ok in H as (mdl & t10 & G10 & H).
  inversion H; subst; clear H. cbn [Comments.model_comment].
  exists t8, l4, t9, s8. auto.
Qed.

(** Reading past the model comment of a re-encoded model. *)
Lemma read_model_core (s s' : SliceReader.SliceReader) m t :
  read_model s = Ok m s' ->
  read_model (SliceReader.new (Encode.core m ++ t)) =
  (ve <- read_vertex_ex_info (Z.of_nat (length (Model.vertices m))) ;;
   je <- read_joint_ex_info (Z.of_nat (length (Model.joints m))) ;;
   me <- read_model_ex_info ;;
   ret (with_tail m (Comments.model_comment (Model.comments m)) ve je me))
    (SliceReader.new t).
Proof.
  intros H. rewrite core_split, <- app_assoc. erewrite read_model_prefix by exact H.
  destruct (read_model_comments _ _ _ H) as (s0 & l & s1 & s2 & E1 & E2).
  destruct (rt_model_comment _ _ _ _ _ t E1 E2) as (l' & r & F1 & F2).
  unfold bind at 1 2. rewrite F1, F2. reflexivity.
Qed.

(** ** The tail of a decoded model *)

Lemma read_model_parts (s s' : SliceReader.SliceReader) m :
  read_model s = Ok m s' ->
  exists s8 s9 s10,
    read_vertex_ex_info (Z.of_nat (length (Model.vertices m))) s8
      = Ok (Model.vertex_ex_info m) s9 /\
    read_joint_ex_info (Z.of_nat (length (Model.joints m))) s9
      = Ok (Model.joint_ex_info m) s10 /\
    read_model_ex_info s10 = Ok (Model.model_ex_info m) s'.
Proof.
  intros H. unfold read_model in H.
  apply bind_Ok in H as (hd & s1 & H1 & H). apply bind_Ok in H as (vs & s2 & H2 & H).
  apply bind_Ok in H as (ts & s3 & H3 & H). apply bind_Ok in H as (gs & s4 & H4 & H).
  apply bind_Ok in H as (ms & s5 & H5 & H). apply bind_Ok in H as (kd & s6 & H6 & H).
  apply bind_Ok in H as (js & s7 & H7 & H). apply bind_Ok in H as (cs & s8 & H8 & H).
  apply bind_Ok in H as (ve & s9 & H9 & H). apply bind_Ok in H as (je & s10 & H10 & H).
  apply bind_Ok in H as (me & s11 & H11 & H). inversion H; subst; clear H.
  exists s8, s9, s10. auto.
Qed.

Lemma bind_Err {S A B} (m : M S A) (k : A -> M S B) s e :
  m s = Err e -> bind m k s = Err e.
Proof. unfold bind. intros ->. reflexivity. Qed.

Lemma ex_info_nil n :
  read_vertex_ex_info n (SliceReader.new []) = Err (Io UnexpectedEof) /\
  read_joint_ex_info n (SliceReader.new []) = Err (Io UnexpectedEof) /\
  read_model_ex_info (SliceReader.new []) = Err (Io UnexpectedEof).
Proof. repeat split; reflexivity. Qed.

Lemma from_bytes_Ok (bytes : list byte) m :
  from_bytes bytes = Ok m tt -> exists s', read_model (SliceReader.new bytes) = Ok m s'.
Proof.
  unfold from_bytes, run. destruct (read_model _) as [x s'| |]; intros H; inversion H; subst.
  eauto.
Qed.

Lemma i32_of_bytes_enc (n : Z) : - 2 ^ 31 <= n < 2 ^ 31 -> De.i32_of_bytes (enc_u 4 n) = n.
Proof.
  intros Hn. unfold De.i32_of_bytes, take_s, enc_u. cbn [fst].
  rewrite firstn_le_bytes, le_le_bytes. change (8 * Z.of_nat 4) with 32.
  unfold signed. change (32 - 1) with 31.
  destruct (Z.leb_spec 0 n).
  - rewrite Z.mod_small by lia. rewrite (proj2 (Z.ltb_lt _ _)) by lia. reflexivity.
  - replace (n mod 2 ^ 32) with (n + 2 ^ 32).
    + rewrite (proj2 (Z.ltb_ge _ _)) by lia. cbn iota. lia.
    + rewrite <- (Z.mod_small (n + 2 ^ 32) (2 ^ 32)) by lia.
      rewrite <- (Z.mod_add n 1 (2 ^ 32)) by lia. reflexivity.
Qed.

(** ** Header, flags and triangle records *)

Lemma read_header_prefix (s t : list byte) :
  (14 <= length s)%nat ->
  read_header (SliceReader.new (firstn 14 s ++ t)) =
  (_ <- ensure (if list_eq_dec Byte.byte_eq_dec (firstn 10 s) MAGIC then true else false)
                "invalid header" ;;
   _ <- ensure (De.Header.version (De.Header.of_bytes (firstn 14 s)) =? 4)
                "unsupported version" ;;
   ret (Header.mk (De.Header.version (De.Header.of_bytes (firstn 14 s)))))
    (SliceReader.new t).
Proof.
  intros Hl. unfold read_header.
  erewrite bind_step by (apply read_type_slice_app; unfold De.Header.size; rewrite length_firstn; lia).
  assert (E : De.Header.id (De.Header.of_bytes (firstn 14 s)) = firstn 10 s).
  { unfold De.Header.of_bytes, take. cbn. rewrite firstn_firstn. reflexivity. }
  rewrite E. reflexivity.
Qed.

Lemma convert_flags_eq (b : u8) (allowed : Flags) :
  convert_flags b allowed =
  if (Z.land b 240 =? 0) && (Z.land (bits allowed) b =? b)
  then inl (mkFlags b) else inr (Invalid "invalid flags").
Proof.
  unfold convert_flags, Flags.from_bits, Flags.contains. cbn [bits Flags.all].
  change (Z.lxor 15 255) with 240.
  destruct (Z.land b 240 =? 0); reflexivity.
Qed.

Lemma flags_table_ok_true : flags_table_ok = true.
Proof. vm_compute. reflexivity. Qed.

Lemma flags_bool_eq (a b : Z) :
  0 <= a < 256 -> 0 <= b < 256 ->
  (Z.land b 240 =? 0) && (Z.land a b =? b) = (Z.land b (Z.lnot (Z.land 15 a)) =? 0).
Proof.
  intros Ha Hb. pose proof flags_table_ok_true as T. unfold flags_table_ok in T.
  rewrite forallb_forall in T.
  assert (Hin : forall z, 0 <= z < 256 -> In z (map Z.of_nat (seq 0 256))).
  { intros z Hz. apply in_map_iff. exists (Z.to_nat z). split; [lia|].
    apply in_seq. lia. }
  specialize (T a (Hin a Ha)). rewrite forallb_forall in T.
  apply Bool.eqb_prop. apply T, Hin, Hb.
Qed.

Lemma le_two_mod (lo hi : byte) : le [lo; hi] mod 256 = byte_val lo.
Proof.
  change (le [lo; hi]) with (byte_val lo + 256 * (byte_val hi + 256 * 0)).
  pose proof (byte_val_range lo).
  rewrite (Z.mul_comm 256 (byte_val hi + 256 * 0)), Z.mod_add by lia.
  apply Z.mod_small. lia.
Qed.

Lemma tri_of_bytes_cons (lo h : byte) (r : list byte) :
  De.Triangle.of_bytes (lo :: h :: r) =
  let t := De.Triangle.of_bytes (x00 :: x00 :: r) in
  De.Triangle.mk (le [lo; h]) (De.Triangle.vertex_indices t) (De.Triangle.vertex_normals t)
    (De.Triangle.s t) (De.Triangle.t_ t) (De.Triangle.smoothing_group t)
    (De.Triangle.group_index t).
Proof.
  unfold De.Triangle.of_bytes, take_u, take_s, take_f32x3. cbn.
  rewrite !skipn_cons, !skipn_O, !firstn_cons, !firstn_O. reflexivity.
Qed.

(** ** Comment lists too long for the input *)

Lemma read_comment_cases (l : list byte) :
  (exists c l', read_comment (SliceReader.new l) = Ok c (SliceReader.new l') /\
                (length l' + 8 <= length l)%nat) \/
  read_comment (SliceReader.new l) = Err (Io UnexpectedEof) \/
  read_comment (SliceReader.new l) = Err Utf8.
Proof.
  unfold read_comment, read_type, read_string, bind. rewrite read_bytes_slice.
  destruct (Z.gtb_spec (Z.of_nat De.CommentPrefix.size) (Z.of_nat (length l))) as [H|H];
    [right; left; reflexivity|].
  cbn [ret]. rewrite read_bytes_slice.
  set (n := usize_of_i32 _).
  destruct (Z.gtb_spec n (Z.of_nat (length (skipn (Z.to_nat (Z.of_nat De.CommentPrefix.size)) l))))
    as [H2|H2]; [right; left; reflexivity|].
  unfold lift, from_utf8.
  destruct (utf8_valid _); [left|right; right; reflexivity].
  do 2 eexists. split; [reflexivity|].
  rewrite !length_skipn. unfold De.CommentPrefix.size in *. lia.
Qed.

Lemma read_vec_comment_short (k : nat) (l : list byte) :
  (length l < 8 * k)%nat ->
  read_vec_nat k read_comment (SliceReader.new l) = Err (Io UnexpectedEof) \/
  read_vec_nat k read_comment (SliceReader.new l) = Err Utf8.
Proof.
  revert l; induction k as [|k IH]; intros l Hl; [lia|].
  cbn [read_vec_nat]. unfold bind.
  destruct (read_comment_cases l) as [(c & l' & E & Hl')|[E|E]]; rewrite E;
    [|left; reflexivity|right; reflexivity].
  cbv beta iota. destruct (IH l') as [E'|E']; [lia|left|right]; rewrite E'; reflexivity.
Qed.

(** ** The stream backend simulates the slice backend *)

Lemma sim_ret {A} (P : A -> Prop) x : P x -> sim P (ret x) (ret x).
Proof. intros Hx l cap Hc Hl. cbn. auto. Qed.

Lemma sim_fail {A} (P : A -> Prop) e : sim P (fail e) (fail e).
Proof. intros l cap Hc Hl. reflexivity. Qed.

Lemma sim_bind {A B} (P : A -> Prop) (Q : B -> Prop) m1 m2 k1 k2 :
  sim P m1 m2 -> (forall x, P x -> sim Q (k1 x) (k2 x)) ->
  sim Q (bind m1 k1) (bind m2 k2).
Proof.
  intros Hm Hk l cap Hc Hl. specialize (Hm l cap Hc Hl). unfold bind.
  destruct (m1 _) as [x [l1 c1]| e|p], (m2 _) as [y [l2]| e'|p'];
    cbn in Hm |- *; try contradiction.
  - destruct Hm as (<- & Hx & -> & Hc1 & Hl1). apply Hk; auto.
  - exact Hm.
  - destruct e'; try contradiction. destruct k; try contradiction. exact I.
Qed.

Lemma sim_weaken {A} (P Q : A -> Prop) m1 m2 :
  (forall x, P x -> Q x) -> sim P m1 m2 -> sim Q m1 m2.
Proof.
  intros HPQ Hm l cap Hc Hl. specialize (Hm l cap Hc Hl).
  destruct (m1 _) as [x [l1 c1]| e|p], (m2 _) as [y [l2]| e'|p'];
    cbn in Hm |- *; try tauto.
  destruct Hm as (<- & Hx & Hr). auto.
Qed.

Lemma sim_lift {A} (r : A + Error) : sim (fun _ => True) (lift r) (lift r).
Proof. destruct r; [apply sim_ret; exact I | apply sim_fail]. Qed.

Lemma sim_ensure c msg : sim (fun _ => True) (ensure c msg) (ensure c msg).
Proof. destruct c; [apply sim_ret; exact I | apply sim_fail]. Qed.

(** [reserve] never panics below [2^32] bytes while the capacity stays at
    most [2^33]; above [isize::MAX] it panics where the slice runs out. *)
Lemma sim_read_bytes (len : usize) :
  good_len len ->
  sim (fun bs => Z.of_nat (length bs) = len) (read_bytes len) (read_bytes len).
Proof.
  intros Hg l cap Hc Hl. unfold good_len, isize_MAX in *.
  rewrite read_bytes_slice.
  unfold read_bytes, read, IoReader_Read, IoReader.read, IoReader.reserve,
    IoReader.read_exact. cbn [IoReader.buf_capacity IoReader.rdr].
  destruct (Z.leb_spec len cap) as [Hle|Hgt].
  - destruct (Z.gtb_spec len (Z.of_nat (length l))); cbn; [reflexivity|].
    rewrite length_skipn, length_firstn. repeat split; lia.
  - destruct (Z.gtb_spec (Z.max (Z.max (2 * cap) len) 8) isize_MAX) as [Hp|Hp];
      unfold isize_MAX in Hp.
    + destruct (Z.gtb_spec len (Z.of_nat (length l))); [cbn; exact I | lia].
    + destruct (Z.gtb_spec len (Z.of_nat (length l)));
        cbn -[Z.mul Z.max Z.pow isize_MAX]; [reflexivity|].
      rewrite length_skipn, length_firstn. unfold isize_MAX. repeat split; lia.
Qed.

Lemma sim_read_type {T} (n : nat) (f : list byte -> T) :
  Z.of_nat n <= 2 ^ 32 ->
  sim (fun x => exists b, x = f b) (read_type n f) (read_type n f).
Proof.
  intros Hn. unfold read_type. eapply sim_bind.
  - apply sim_read_bytes. left. lia.
  - intros bs _. apply sim_ret. eauto.
Qed.

Lemma sim_read_vec_nat {T} (P : T -> Prop) fI fS (k : nat) :
  sim P fI fS -> sim (fun _ => True) (read_vec_nat k fI) (read_vec_nat k fS).
Proof.
  intros Hf. induction k as [|k IH]; cbn [read_vec_nat].
  - apply sim_ret. exact I.
  - eapply sim_bind; [exact Hf|]. intros x _.
    eapply sim_bind; [exact IH|]. intros xs _. apply sim_ret. exact I.
Qed.

Lemma sim_read_vec {T} (P : T -> Prop) fI fS (len : usize) :
  sim P fI fS -> sim (fun _ => True) (read_vec len fI) (read_vec len fS).
Proof. apply sim_read_vec_nat. Qed.

Lemma sim_read_string (len : usize) :
  good_len len -> sim (fun _ => True) (read_string len) (read_string len).
Proof.
  intros Hg. unfold read_string. eapply sim_bind.
  - apply sim_read_bytes, Hg.
  - intros bs _. apply sim_lift.
Qed.

Lemma good_len_usize_of_i32 (x : i32) :
  - 2 ^ 31 <= x < 2 ^ 31 -> good_len (usize_of_i32 x).
Proof.
  intros Hx. unfold good_len, usize_of_i32, isize_MAX.
  destruct (Z.leb_spec 0 x).
  - rewrite Z.mod_small by lia. left. lia.
  - right. rewrite <- (Z.mod_add x 1 (2 ^ 64)) by lia.
    rewrite Z.mod_small by lia. lia.
Qed.

Create HintDb sim_db.
#[local] Hint Resolve sim_lift sim_ensure : sim_db.

Ltac sim_size := cbn; lia.

(** Walk a reader's binds, conditionals and list reads in lockstep. *)
Ltac sim_go :=
  repeat match goal with
  | |- sim _ (bind _ _) (bind _ _) =>
      eapply sim_bind;
      [ first [ apply sim_read_type; sim_size
              | eapply sim_read_vec; solve [eauto with sim_db]
              | solve [eauto with sim_db] ]
      | intros ? ? ]
  | |- sim _ (ret _) (ret _) => apply sim_ret; exact I
  | |- sim _ (fail _) (fail _) => apply sim_fail
  | |- sim _ (if ?c then _ else _) (if ?c then _ else _) => destruct c
  | |- sim _ (read_vec _ _) (read_vec _ _) =>
      eapply sim_read_vec; solve [eauto with sim_db]
  end.

Lemma sim_read_u16 : sim (fun _ => True) read_u16 read_u16.
Proof. eapply sim_weaken; [|apply sim_read_type; sim_size]. auto. Qed.
Lemma sim_read_u32 : sim (fun _ => True) read_u32 read_u32.
Proof. eapply sim_weaken; [|apply sim_read_type; sim_size]. auto. Qed.
Lemma sim_read_i32 : sim (fun _ => True) read_i32 read_i32.
Proof. eapply sim_weaken; [|apply sim_read_type; sim_size]. auto. Qed.
#[local] Hint Resolve sim_read_u16 sim_read_u32 sim_read_i32 : sim_db.

Lemma sim_read_header : sim (fun _ => True) read_header read_header.
Proof. unfold read_header. sim_go. Qed.
Lemma sim_read_vertex : sim (fun _ => True) read_vertex read_vertex.
Proof. unfold read_vertex. sim_go. Qed.
Lemma sim_read_triangle : sim (fun _ => True) read_triangle read_triangle.
Proof. unfold read_triangle. sim_go. Qed.
Lemma sim_read_group : sim (fun _ => True) read_group read_group.
Proof. unfold read_group. sim_go. Qed.
Lemma sim_read_material : sim (fun _ => True) read_material read_material.
Proof. unfold read_material. sim_go. Qed.
Lemma sim_read_key_frame_data :
  sim (fun _ => True) read_key_frame_data read_key_frame_data.
Proof. unfold read_key_frame_data. sim_go. Qed.
Lemma sim_read_key_frame_rot :
  sim (fun _ => True) read_key_frame_rot read_key_frame_rot.
Proof. unfold read_key_frame_rot. sim_go. Qed.
Lemma sim_read_key_frame_pos :
  sim (fun _ => True) read_key_frame_pos read_key_frame_pos.
Proof. unfold read_key_frame_pos. sim_go. Qed.
#[local] Hint Resolve sim_read_header sim_read_vertex sim_read_triangle
  sim_read_group sim_read_material sim_read_key_frame_data
  sim_read_key_frame_rot sim_read_key_frame_pos : sim_db.

Lemma sim_read_joint : sim (fun _ => True) read_joint read_joint.
Proof. unfold read_joint. sim_go. Qed.

(** A comment's length is an [i32] cast to [usize]: at most [2^31 - 1], or
    above [isize::MAX]. *)
Lemma sim_read_comment : sim (fun _ => True) read_comment read_comment.
Proof.
  unfold read_comment. eapply sim_bind.
  - apply sim_read_type. sim_size.
  - intros p [b ->]. eapply sim_bind.
    + apply sim_read_string, good_len_usize_of_i32.
      unfold De.CommentPrefix.of_bytes. cbn [fst snd].
      exact (signed_le_firstn_range 4 _ ltac:(lia)).
    + intros c _. apply sim_ret. exact I.
Qed.
#[local] Hint Resolve sim_read_joint sim_read_comment : sim_db.

Lemma sim_read_model_comment (len : usize) :
  sim (fun _ => True) (read_model_comment len) (read_model_comment len).
Proof. unfold read_model_comment. sim_go. Qed.
#[local] Hint Resolve sim_read_model_comment : sim_db.

Lemma sim_read_comments : sim (fun _ => True) read_comments read_comments.
Proof. unfold read_comments. sim_go. Qed.

Lemma sim_read_vertex_ex_1 : sim (fun _ => True) read_vertex_ex_1 read_vertex_ex_1.
Proof. unfold read_vertex_ex_1. sim_go. Qed.
Lemma sim_read_vertex_ex_2 : sim (fun _ => True) read_vertex_ex_2 read_vertex_ex_2.
Proof. unfold read_vertex_ex_2. sim_go. Qed.
Lemma sim_read_vertex_ex_3 : sim (fun _ => True) read_vertex_ex_3 read_vertex_ex_3.
Proof. unfold read_vertex_ex_3. sim_go. Qed.
Lemma sim_read_joint_ex : sim (fun _ => True) read_joint_ex read_joint_ex.
Proof. unfold read_joint_ex. sim_go. Qed.
Lemma sim_read_model_ex : sim (fun _ => True) read_model_ex read_model_ex.
Proof. unfold read_model_ex. sim_go. Qed.
#[local] Hint Resolve sim_read_comments sim_read_vertex_ex_1 sim_read_vertex_ex_2
  sim_read_vertex_ex_3 sim_read_joint_ex sim_read_model_ex : sim_db.

Lemma sim_read_vertex_ex_info (len : usize) :
  sim (fun _ => True) (read_vertex_ex_info len) (read_vertex_ex_info len).
Proof. unfold read_vertex_ex_info. sim_go. Qed.
Lemma sim_read_joint_ex_info (len : usize) :
  sim (fun _ => True) (read_joint_ex_info len) (read_joint_ex_info len).
Proof. unfold read_joint_ex_info. sim_go. Qed.
Lemma sim_read_model_ex_info :
  sim (fun _ => True) read_model_ex_info read_model_ex_info.
Proof. unfold read_model_ex_info. sim_go. Qed.
#[local] Hint Resolve sim_read_vertex_ex_info sim_read_joint_ex_info
  sim_read_model_ex_info : sim_db.

Lemma sim_read_vertices : sim (fun _ => True) read_vertices read_vertices.
Proof. unfold read_vertices. sim_go. Qed.
Lemma sim_read_triangles : sim (fun _ => True) read_triangles read_triangles.
Proof. unfold read_triangles. sim_go. Qed.
Lemma sim_read_groups : sim (fun _ => True) read_groups read_groups.
Proof. unfold read_groups. sim_go. Qed.
Lemma sim_read_materials : sim (fun _ => True) read_materials read_materials.
Proof. unfold read_materials. sim_go. Qed.
Lemma sim_read_joints : sim (fun _ => True) read_joints read_joints.
Proof. unfold read_joints. sim_go. Qed.
#[local] Hint Resolve sim_read_vertices sim_read_triangles sim_read_groups
  sim_read_materials sim_read_joints : sim_db.

Lemma sim_read_model : sim (fun _ => True) read_model read_model.
Proof. unfold read_model. sim_go. Qed.

(** * The claims *)

Module Claims.

(** Claim C1, counterexample: the sample file decodes, but cut just before
    its VertexExInfo sub-version tag it fails with [UnexpectedEof] instead
    of yielding default ex-info sections. *)
Lemma c1_counterexample :
  from_bytes (Encode.model sample_model) = Ok sample_model tt /\
  from_bytes (Encode.core sample_model) = Err (Io UnexpectedEof).
Proof. split; vm_compute; reflexivity. Qed.

(** Claim C1 (amended): a well-formed file cut exactly before the
    VertexExInfo, the JointExInfo or the ModelExInfo sub-version tag fails
    to decode with an end-of-input error; the ex-info sections are never
    defaulted. *)
Theorem truncated_ex_info_fails (bytes : list byte) (m : Model.t) :
  from_bytes bytes = Ok m tt ->
  from_bytes (Encode.core m) = Err (Io UnexpectedEof) /\
  from_bytes (Encode.core m ++ Encode.vertex_ex_info (Model.vertex_ex_info m))
    = Err (Io UnexpectedEof) /\
  from_bytes (Encode.core m ++ Encode.vertex_ex_info (Model.vertex_ex_info m) ++
              Encode.joint_ex_info (Model.joint_ex_info m)) = Err (Io UnexpectedEof).
Proof.
  intros H. apply from_bytes_Ok in H as (s' & H).
  destruct (read_model_parts _ _ _ H) as (s8 & s9 & s10 & E1 & E2 & E3).
  unfold from_bytes, run. repeat split.
  - rewrite <- (app_nil_r (Encode.core m)). erewrite read_model_core by exact H.
    rewrite (bind_Err _ _ _ (Io UnexpectedEof)) by apply (proj1 (ex_info_nil _)).
    reflexivity.
  - rewrite <- (app_nil_r (Encode.vertex_ex_info _)). erewrite read_model_core by exact H.
    erewrite bind_step by (eapply rt_read_vertex_ex_info; exact E1).
    rewrite (bind_Err _ _ _ (Io UnexpectedEof))
      by apply (proj1 (proj2 (ex_info_nil _))).
    reflexivity.
  - rewrite <- (app_nil_r (Encode.joint_ex_info _)). erewrite read_model_core by exact H.
    erewrite bind_step by (eapply rt_read_vertex_ex_info; exact E1).
    erewrite bind_step by (eapply rt_read_joint_ex_info; exact E2).
    rewrite (bind_Err _ _ _ (Io UnexpectedEof))
      by apply (proj2 (proj2 (ex_info_nil 0))).
    reflexivity.
Qed.

Lemma truncated_ex_info_fails_witness :
  from_bytes (Encode.model sample_model) = Ok sample_model tt /\
  from_bytes (Encode.core sample_model) = Err (Io UnexpectedEof).
Proof.
  assert (H : from_bytes (Encode.model sample_model) = Ok sample_model tt)
    by (vm_compute; reflexivity).
  split; [exact H|]. exact (proj1 (truncated_ex_info_fails _ _ H)).
Defined.

(** Claim C2: every model the decoder returns is decoded again, unchanged,
    from the bytes the layout-table encoder writes for it. *)
Theorem decode_encode_roundtrip (bytes : list byte) (m : Model.t) :
  from_bytes bytes = Ok m tt -> from_bytes (Encode.model m) = Ok m tt.
Proof.
  unfold from_bytes, run. destruct (read_model (SliceReader.new bytes)) as [x s'| |] eqn:E;
    intros H; inversion H; subst; clear H.
  rewrite <- (app_nil_r (Encode.model m)).
  erewrite rt_read_model by exact E. reflexivity.
Qed.

Lemma decode_encode_roundtrip_witness :
  from_bytes (Encode.model sample_model) = Ok sample_model tt /\
  from_bytes (Encode.model sample_model) = Ok sample_model tt.
Proof.
  assert (H : from_bytes (Encode.model sample_model) = Ok sample_model tt)
    by (vm_compute; reflexivity).
  split; [exact H|]. exact (decode_encode_roundtrip _ _ H).
Defined.

(** Claim C3: on an input of at least the 14 header bytes, a magic other
    than "MS3D000000" fails with "invalid header" whatever follows, a right
    magic with a version other than 4 fails with "unsupported version"
    whatever follows, and every decoded model came from a file with that
    magic and has version 4. *)
Theorem header_validation (s : list byte) :
  (14 <= length s)%nat ->
  (firstn 10 s <> MAGIC -> forall t,
     from_bytes (firstn 14 s ++ t) = Err (Invalid "invalid header")) /\
  (firstn 10 s = MAGIC -> De.Header.version (De.Header.of_bytes (firstn 14 s)) <> 4 ->
     forall t, from_bytes (firstn 14 s ++ t) = Err (Invalid "unsupported version")) /\
  (forall m, from_bytes s = Ok m tt ->
     firstn 10 s = MAGIC /\ Header.version (Model.header m) = 4).
Proof.
  intros Hl. split; [|split].
  - intros Hm t. unfold from_bytes, run, read_model.
    rewrite (bind_Err _ _ _ (Invalid "invalid header")); [reflexivity|].
    rewrite read_header_prefix by exact Hl.
    destruct (list_eq_dec Byte.byte_eq_dec (firstn 10 s) MAGIC); [contradiction|].
    reflexivity.
  - intros Hm Hv t. unfold from_bytes, run, read_model.
    rewrite (bind_Err _ _ _ (Invalid "unsupported version")); [reflexivity|].
    rewrite read_header_prefix by exact Hl.
    destruct (list_eq_dec Byte.byte_eq_dec (firstn 10 s) MAGIC); [|contradiction].
    erewrite bind_step by reflexivity.
    apply Z.eqb_neq in Hv. rewrite Hv. reflexivity.
  - intros m H. unfold from_bytes, run in H.
    destruct (read_model (SliceReader.new s)) as [x s'| |] eqn:E;
      inversion H; subst; clear H.
    unfold read_model in E. apply bind_Ok in E as (hd & s1 & H1 & E).
    do 10 (apply bind_Ok in E as (? & ? & ? & E)). inversion E; subst; clear E.
    cbn [Model.header]. rewrite <- (firstn_skipn 14 s) in H1.
    rewrite read_header_prefix in H1 by exact Hl.
    destruct (list_eq_dec Byte.byte_eq_dec (firstn 10 s) MAGIC) as [Hm|Hm];
      [|discriminate].
    destruct (De.Header.version (De.Header.of_bytes (firstn 14 s)) =? 4) eqn:Ev;
      [|discriminate].
    inversion H1; subst. cbn. split; [exact Hm|]. apply Z.eqb_eq, Ev.
Qed.

Lemma header_validation_witness :
  firstn 10 (Encode.model sample_model) = MAGIC /\
  Header.version (Model.header sample_model) = 4.
Proof.
  apply (proj2 (proj2 (header_validation (Encode.model sample_model)
                          ltac:(apply Nat.leb_le; vm_compute; reflexivity)))).
  vm_compute. reflexivity.
Defined.

(** Claim C4: a flags byte is accepted, unchanged, exactly when it sets no
    bit outside both the named flags and the entity's allowed mask; the
    masks are {SELECTED, HIDDEN, SELECTED2} for vertices and triangles,
    {SELECTED, HIDDEN} for groups and {SELECTED, DIRTY} for joints. *)
Theorem convert_flags_spec (b : u8) (allowed : Flags) :
  0 <= b < 256 -> 0 <= bits allowed < 256 ->
  convert_flags b allowed =
  (if Z.land b (Z.lnot (Z.land (bits Flags.all) (bits allowed))) =? 0
   then inl (mkFlags b) else inr (Invalid "invalid flags")) /\
  bits Vertex.ALLOWED_FLAGS = 7 /\ bits Triangle.ALLOWED_FLAGS = 7 /\
  bits Group.ALLOWED_FLAGS = 3 /\ bits Joint.ALLOWED_FLAGS = 9.
Proof.
  intros Hb Ha. repeat split; try reflexivity.
  rewrite convert_flags_eq, flags_bool_eq by assumption. reflexivity.
Qed.

Lemma convert_flags_spec_witness :
  convert_flags 9 Group.ALLOWED_FLAGS = inr (Invalid "invalid flags").
Proof.
  rewrite (proj1 (convert_flags_spec 9 Group.ALLOWED_FLAGS
                    ltac:(lia) ltac:(vm_compute; split; [discriminate | reflexivity]))).
  vm_compute. reflexivity.
Defined.

(** Claim C5: a triangle record decodes the same whatever the high byte of
    its 16-bit flags field holds; only the low byte is checked. *)
Theorem triangle_flags_low_byte (lo hi : byte) (rest : list byte) :
  read_triangle (SliceReader.new (lo :: hi :: rest)) =
  read_triangle (SliceReader.new (lo :: x00 :: rest)).
Proof.
  unfold read_triangle, read_type, bind. rewrite !read_bytes_slice. cbn [length].
  destruct (_ >? _); [reflexivity|].
  change (Z.to_nat (Z.of_nat De.Triangle.size)) with 70%nat.
  rewrite !firstn_cons, !skipn_cons.
  rewrite (tri_of_bytes_cons lo hi), (tri_of_bytes_cons lo x00).
  cbn [De.Triangle.flags De.Triangle.vertex_indices De.Triangle.vertex_normals
    De.Triangle.s De.Triangle.t_ De.Triangle.smoothing_group De.Triangle.group_index].
  cbn [ret]. cbn [De.Triangle.flags]. rewrite !le_two_mod. reflexivity.
Qed.

(** Claim C6, counterexample: a material-comment count of [-1] is not
    rejected as invalid; it is cast to [usize] and read as a count, and the
    decode ends at the end of the input. *)
Lemma c6_counterexample :
  from_bytes negative_count_file = Err (Io UnexpectedEof).
Proof. lazy. reflexivity. Qed.

(** Claim C6 (amended): a negative material or joint comment count is cast
    to [usize] ([2^64 + n]) and taken as the number of comments to read, so
    reading them fails with an end-of-input or a UTF-8 error on any input a
    slice can hold; a negative model-comment count is rejected with "invalid
    number of model comments". *)
Theorem negative_comment_count (n : i32) (s : list byte) :
  - 2 ^ 31 <= n < 0 -> Z.of_nat (length s) <= isize_MAX ->
  (read_vec (usize_of_i32 n) read_comment (SliceReader.new s) = Err (Io UnexpectedEof) \/
   read_vec (usize_of_i32 n) read_comment (SliceReader.new s) = Err Utf8) /\
  read_model_comment (usize_of_i32 n) (SliceReader.new s)
    = Err (Invalid "invalid number of model comments").
Proof.
  intros Hn Hs. unfold isize_MAX in Hs.
  assert (Hu : usize_of_i32 n = n + 2 ^ 64).
  { unfold usize_of_i32. rewrite <- (Z.mod_small (n + 2 ^ 64) (2 ^ 64)) by lia.
    rewrite <- (Z.mod_add n 1 (2 ^ 64)) by lia. f_equal. }
  split.
  - unfold read_vec. apply read_vec_comment_short. lia.
  - unfold read_model_comment. rewrite Hu.
    rewrite (proj2 (Z.eqb_neq _ 0)), (proj2 (Z.eqb_neq _ 1)) by lia. reflexivity.
Qed.

Lemma negative_comment_count_witness :
  read_model_comment (usize_of_i32 (-1)) (SliceReader.new [])
    = Err (Invalid "invalid number of model comments").
Proof.
  exact (proj2 (negative_comment_count (-1) []
                  ltac:(lia) ltac:(unfold isize_MAX; cbn; lia))).
Defined.

(** Claim C7: re-encoding a decoded model with a model-comment count of 0
    decodes to the model without a model comment, with a count of 1 and a
    comment to the model with exactly that comment, and with any count from
    2 up fails with "invalid number of model comments" whatever follows. *)
Theorem model_comment_count (bytes : list byte) (m : Model.t) :
  from_bytes bytes = Ok m tt ->
  let pre := Encode.before_model_comment m in
  let post := Encode.vertex_ex_info (Model.vertex_ex_info m) ++
              Encode.joint_ex_info (Model.joint_ex_info m) ++
              Encode.model_ex_info (Model.model_ex_info m) in
  let with_mc mc := with_tail m mc (Model.vertex_ex_info m) (Model.joint_ex_info m)
                      (Model.model_ex_info m) in
  from_bytes (pre ++ enc_u 4 0 ++ post) = Ok (with_mc None) tt /\
  (forall (c : Comment.t) (s s' : SliceReader.SliceReader), read_comment s = Ok c s' ->
     from_bytes (pre ++ enc_u 4 1 ++ Encode.comment c ++ post) = Ok (with_mc (Some c)) tt) /\
  (forall (n : i32) (t : list byte), 2 <= n < 2 ^ 31 ->
     from_bytes (pre ++ enc_u 4 n ++ t) = Err (Invalid "invalid number of model comments")).
Proof.
  intros H pre post with_mc. apply from_bytes_Ok in H as (s' & H).
  destruct (read_model_parts _ _ _ H) as (s8 & s9 & s10 & E1 & E2 & E3).
  assert (Hpost : forall mc,
    (ve <- read_vertex_ex_info (Z.of_nat (length (Model.vertices m))) ;;
     je <- read_joint_ex_info (Z.of_nat (length (Model.joints m))) ;;
     me <- read_model_ex_info ;; ret (with_tail m mc ve je me)) (SliceReader.new post)
    = Ok (with_mc mc) (SliceReader.new [])).
  { intros mc. subst post. rewrite <- (app_nil_r (Encode.model_ex_info _)).
    erewrite bind_step by (eapply rt_read_vertex_ex_info; exact E1).
    erewrite bind_step by (eapply rt_read_joint_ex_info; exact E2).
    erewrite bind_step by (eapply rt_read_model_ex_info; exact E3).
    reflexivity. }
  unfold from_bytes, run. subst pre. repeat split.
  - erewrite read_model_prefix by exact H.
    erewrite bind_step by apply read_i32_enc.
    rewrite i32_of_bytes_enc by lia.
    erewrite (bind_step _ _ _ None (SliceReader.new post)) by reflexivity.
    rewrite Hpost. reflexivity.
  - intros c s0 s1 Hc.
    erewrite read_model_prefix by exact H.
    erewrite bind_step by apply read_i32_enc.
    rewrite i32_of_bytes_enc by lia.
    erewrite (bind_step _ _ _ (Some c) (SliceReader.new post)).
    + rewrite Hpost. reflexivity.
    + unfold read_model_comment. cbn - [read_comment].
      erewrite bind_step by (eapply rt_read_comment; exact Hc). reflexivity.
  - intros n t Hn. erewrite read_model_prefix by exact H.
    erewrite bind_step by apply read_i32_enc.
    rewrite i32_of_bytes_enc by lia.
    unfold read_model_comment, usize_of_i32. rewrite Z.mod_small by lia.
    rewrite (proj2 (Z.eqb_neq n 0)), (proj2 (Z.eqb_neq n 1)) by lia. reflexivity.
Qed.

Lemma model_comment_count_witness :
  from_bytes (Encode.model sample_model) = Ok sample_model tt /\
  from_bytes (Encode.before_model_comment sample_model ++ enc_u 4 2 ++ [])
    = Err (Invalid "invalid number of model comments").
Proof.
  assert (H : from_bytes (Encode.model sample_model) = Ok sample_model tt)
    by (vm_compute; reflexivity).
  split; [exact H|].
  exact (proj2 (proj2 (model_comment_count _ _ H)) 2 [] ltac:(lia)).
Defined.

(** Claim C8: a fixed-width name or path slot decodes to the bytes before
    its first zero byte, or to the whole slot when it holds none, provided
    they are valid UTF-8; otherwise the conversion fails with a UTF-8 error. *)
Theorem convert_string_spec (pre rest : list byte) :
  ~ In x00 pre ->
  convert_string (pre ++ x00 :: rest) = (if utf8_valid pre then inl pre else inr Utf8) /\
  convert_string pre = (if utf8_valid pre then inl pre else inr Utf8).
Proof.
  intros Hn. unfold convert_string, from_utf8. split.
  - rewrite memchr_app_hit by exact Hn.
    rewrite firstn_app, Nat.sub_diag, firstn_O, app_nil_r, firstn_all. reflexivity.
  - rewrite memchr_miss by exact Hn. reflexivity.
Qed.

Lemma convert_string_spec_witness :
  convert_string (list_byte_of_string "hi" ++ [x00; x41])
    = inl (list_byte_of_string "hi").
Proof.
  rewrite (proj1 (convert_string_spec (list_byte_of_string "hi") [x41]
                    ltac:(vm_compute; intros [H|[H|[]]]; discriminate))).
  vm_compute. reflexivity.
Defined.

(** Claim C9: on any input a slice can hold, the stream backend and the
    slice backend decode the same model, and each fails exactly when the
    other does; the stream fails with the same error, or panics ("capacity
    overflow") where the slice reports the end of its input. *)
Theorem reader_backends_agree (s : list byte) :
  Z.of_nat (length s) <= isize_MAX ->
  (forall m, from_reader s = Ok m tt <-> from_bytes s = Ok m tt) /\
  (forall e, from_reader s = Err e -> from_bytes s = Err e) /\
  (forall e, from_bytes s = Err e ->
     from_reader s = Err e \/
     (e = Io UnexpectedEof /\ exists msg, from_reader s = Panic msg)) /\
  (forall msg, from_reader s = Panic msg -> from_bytes s = Err (Io UnexpectedEof)).
Proof.
  intros Hl. pose proof (sim_read_model s 0 ltac:(lia) Hl) as H.
  unfold from_reader, from_bytes, run, IoReader.new.
  destruct (read_model (IoReader.mk s 0)) as [x sI| e|p],
    (read_model (SliceReader.new s)) as [y sS| e'|p'];
    cbn in H; try contradiction.
  - destruct H as (<- & _). repeat split; intros; congruence.
  - subst. repeat split; intros; try congruence. left. congruence.
  - destruct e'; try contradiction. destruct k; try contradiction.
    repeat split; intros; try congruence. right. split; [congruence | eauto].
Qed.

Lemma reader_backends_agree_witness :
  from_reader panic_file = Panic "capacity overflow" /\
  from_bytes panic_file = Err (Io UnexpectedEof).
Proof.
  assert (Hp : from_reader panic_file = Panic "capacity overflow")
    by (vm_compute; reflexivity).
  split; [exact Hp|].
  exact (proj2 (proj2 (proj2 (reader_backends_agree panic_file
           ltac:(apply Z.leb_le; vm_compute; reflexivity)))) _ Hp).
Defined.

(** Claim C10: a slice read of [n] bytes returns the next [n] bytes and
    leaves the rest when [n] is at most the number of bytes left, and
    otherwise fails with [UnexpectedEof] leaving the input unchanged. *)
Theorem slice_read_spec (l : list byte) (n : usize) :
  0 <= n ->
  (n <= Z.of_nat (length l) ->
   exists head tail,
     SliceReader.read n (SliceReader.new l) = Returned (IoOk head) (SliceReader.new tail) /\
     head ++ tail = l /\ Z.of_nat (length head) = n) /\
  (Z.of_nat (length l) < n ->
   SliceReader.read n (SliceReader.new l) = Returned (IoErr UnexpectedEof) (SliceReader.new l)).
Proof.
  intros Hn. unfold SliceReader.read. cbn [SliceReader.slice]. split.
  - intros Hle. destruct (Z.gtb_spec n (Z.of_nat (length l))); [lia|].
    exists (firstn (Z.to_nat n) l), (skipn (Z.to_nat n) l). split; [reflexivity|].
    split; [apply firstn_skipn|]. rewrite length_firstn. lia.
  - intros Hlt. destruct (Z.gtb_spec n (Z.of_nat (length l))); [reflexivity|lia].
Qed.

Lemma slice_read_spec_witness :
  SliceReader.read 2 (SliceReader.new [x00])
    = Returned (IoErr UnexpectedEof) (SliceReader.new [x00]).
Proof. exact (proj2 (slice_read_spec [x00] 2 ltac:(lia)) ltac:(cbn; lia)). Defined.

End Claims.

(** * Further properties of the decoder *)

(** ** What a successful read yields, on any backend *)

Ltac ok_inv H := unfold ret in H; inversion H; subst; clear H.

Section Decoded.
Context {R : Type} `{Read R}.

Lemma read_type_Ok_any {T} n (f : list byte -> T) (s s' : R) x :
  read_type n f s = Ok x s' -> exists b, x = f b.
Proof.
  unfold read_type. intros Hr. apply bind_Ok in Hr as (bs & s1 & _ & Hr).
  ok_inv Hr. eauto.
Qed.

Lemma read_u16_Ok_any (s s' : R) x : read_u16 s = Ok x s' -> 0 <= x < 2 ^ 16.
Proof.
  unfold read_u16. intros Hr. apply read_type_Ok_any in Hr as (b & ->).
  unfold De.u16_of_bytes, take_u. cbn [fst]. apply (le_firstn_range 2).
Qed.

Lemma read_i32_Ok_any (s s' : R) x :
  read_i32 s = Ok x s' -> exists b, x = De.i32_of_bytes b.
Proof. apply read_type_Ok_any. Qed.

Lemma read_vec_nat_Ok_any {T} (P : T -> Prop) (f : M R T) k (s s' : R) xs :
  (forall s0 x s1, f s0 = Ok x s1 -> P x) ->
  read_vec_nat k f s = Ok xs s' -> length xs = k /\ Forall P xs.
Proof.
  intros Hf. revert s xs; induction k as [|k IH]; intros s xs Hr; cbn [read_vec_nat] in Hr.
  - ok_inv Hr. auto.
  - apply bind_Ok in Hr as (x & s1 & Hx & Hr). apply bind_Ok in Hr as (ys & s2 & Hys & Hr).
    ok_inv Hr. destruct (IH _ _ Hys) as [Hl HP]. cbn. split; [congruence|].
    constructor; eauto.
Qed.

Lemma read_list_Ok_any {T} (P : T -> Prop) (f : M R T) (s s' : R) xs :
  (forall s0 x s1, f s0 = Ok x s1 -> P x) ->
  (len <- read_u16 ;; read_vec len f) s = Ok xs s' ->
  Z.of_nat (length xs) < 2 ^ 16 /\ Forall P xs.
Proof.
  intros Hf Hr. apply bind_Ok in Hr as (n & s1 & Hn & Hr).
  apply read_u16_Ok_any in Hn. unfold read_vec in Hr.
  apply (read_vec_nat_Ok_any P) in Hr as [Hl HP]; auto. split; [|auto]. lia.
Qed.

Lemma convert_flags_contains b allowed f :
  convert_flags b allowed = inl f -> Flags.contains allowed f = true.
Proof.
  unfold convert_flags. destruct (Flags.from_bits b); [|discriminate].
  destruct (Flags.contains allowed f0) eqn:E; intros Hc; inversion Hc; subst; auto.
Qed.

Lemma read_vertex_Ok (s s' : R) v :
  read_vertex s = Ok v s' -> Flags.contains Vertex.ALLOWED_FLAGS (Vertex.flags v) = true.
Proof.
  unfold read_vertex. intros Hr. apply bind_Ok in Hr as (d & s1 & _ & Hr).
  apply bind_Ok in Hr as (fl & s2 & Hf & Hr). apply lift_Ok in Hf as [Hf _].
  ok_inv Hr. eapply convert_flags_contains; eauto.
Qed.

Lemma read_triangle_Ok (s s' : R) v :
  read_triangle s = Ok v s' -> Flags.contains Triangle.ALLOWED_FLAGS (Triangle.flags v) = true.
Proof.
  unfold read_triangle. intros Hr. apply bind_Ok in Hr as (d & s1 & _ & Hr).
  apply bind_Ok in Hr as (fl & s2 & Hf & Hr). apply lift_Ok in Hf as [Hf _].
  ok_inv Hr. eapply convert_flags_contains; eauto.
Qed.

Lemma read_group_Ok (s s' : R) g :
  read_group s = Ok g s' ->
  Flags.contains Group.ALLOWED_FLAGS (Group.flags g) = true /\
  Z.of_nat (length (Group.triangle_indices g)) < 2 ^ 16.
Proof.
  unfold read_group. intros Hr. apply bind_Ok in Hr as (p & s1 & Hp & Hr).
  apply read_type_Ok_any in Hp as (b & ->).
  apply bind_Ok in Hr as (fl & s2 & Hf & Hr). apply lift_Ok in Hf as [Hf _].
  apply bind_Ok in Hr as (nm & s3 & _ & Hr).
  apply bind_Ok in Hr as (ti & s4 & Hti & Hr).
  apply bind_Ok in Hr as (sfx & s5 & _ & Hr). ok_inv Hr. cbn.
  split; [eapply convert_flags_contains; eauto|].
  unfold read_vec in Hti. apply (read_vec_nat_Ok_any (fun _ => True)) in Hti as [-> _];
    [|auto].
  unfold De.GroupPrefix.of_bytes, take, take_u. cbn [De.GroupPrefix.num_triangles].
  pose proof (le_firstn_range 2 (skipn 32 (skipn 1 b))). cbn in *. lia.
Qed.

Ltac u16_field :=
  match goal with
  | |- context [le (firstn 2 ?x)] => pose proof (le_firstn_range 2 x); cbn in *; lia
  end.

Lemma read_joint_Ok (s s' : R) j :
  read_joint s = Ok j s' ->
  Flags.contains Joint.ALLOWED_FLAGS (Joint.flags j) = true /\
  Z.of_nat (length (Joint.key_frames_rot j)) < 2 ^ 16 /\
  Z.of_nat (length (Joint.key_frames_trans j)) < 2 ^ 16.
Proof.
  unfold read_joint. intros Hr. apply bind_Ok in Hr as (p & s1 & Hp & Hr).
  apply read_type_Ok_any in Hp as (b & ->).
  apply bind_Ok in Hr as (fl & s2 & Hf & Hr). apply lift_Ok in Hf as [Hf _].
  apply bind_Ok in Hr as (nm & s3 & _ & Hr).
  apply bind_Ok in Hr as (pn & s4 & _ & Hr).
  apply bind_Ok in Hr as (kr & s5 & Hkr & Hr).
  apply bind_Ok in Hr as (kt & s6 & Hkt & Hr). ok_inv Hr. cbn.
  unfold read_vec in Hkr, Hkt.
  apply (read_vec_nat_Ok_any (fun _ => True)) in Hkr as [-> _]; [|auto].
  apply (read_vec_nat_Ok_any (fun _ => True)) in Hkt as [-> _]; [|auto].
  unfold De.JointPrefix.of_bytes, take_f32x3, take, take_u.
  cbn [De.JointPrefix.num_key_frames_rot De.JointPrefix.num_key_frames_trans].
  split; [eapply convert_flags_contains; eauto|]. split; u16_field.
Qed.

Lemma read_header_Ok (s s' : R) h : read_header s = Ok h s' -> Header.version h = 4.
Proof.
  unfold read_header. intros Hr. apply bind_Ok in Hr as (d & s1 & _ & Hr).
  apply bind_Ok in Hr as (u & s2 & _ & Hr). apply bind_Ok in Hr as (u' & s3 & Hv & Hr).
  apply ensure_Ok in Hv as [Hv _]. ok_inv Hr. cbn. apply Z.eqb_eq, Hv.
Qed.

Lemma read_comments_Ok (s s' : R) c : read_comments s = Ok c s' -> Comments.sub_version c = 1.
Proof.
  unfold read_comments. intros Hr. apply bind_Ok in Hr as (v & s1 & _ & Hr).
  apply bind_Ok in Hr as (u & s2 & Hv & Hr). apply ensure_Ok in Hv as [Hv _].
  do 8 (apply bind_Ok in Hr as (? & ? & _ & Hr)). ok_inv Hr. cbn. apply Z.eqb_eq, Hv.
Qed.

Lemma read_vertex_ex_info_Ok len (s s' : R) v :
  read_vertex_ex_info len s = Ok v s' -> vertex_ex_count v = Z.to_nat len.
Proof.
  unfold read_vertex_ex_info. intros Hr. apply bind_Ok in Hr as (sv & s1 & _ & Hr).
  destruct (sv =? 1); [|destruct (sv =? 2); [|destruct (sv =? 3); [|discriminate]]];
    apply bind_Ok in Hr as (xs & s2 & Hxs & Hr); ok_inv Hr; unfold read_vec in Hxs;
    apply (read_vec_nat_Ok_any (fun _ => True)) in Hxs as [Hl _]; auto.
Qed.

Lemma read_joint_ex_info_Ok len (s s' : R) j :
  read_joint_ex_info len s = Ok j s' ->
  JointExInfo.sub_version j = 1 /\ length (JointExInfo.joint_ex j) = Z.to_nat len.
Proof.
  unfold read_joint_ex_info. intros Hr. apply bind_Ok in Hr as (sv & s1 & _ & Hr).
  apply bind_Ok in Hr as (u & s2 & Hv & Hr). apply ensure_Ok in Hv as [Hv _].
  apply bind_Ok in Hr as (xs & s3 & Hxs & Hr). ok_inv Hr. cbn. unfold read_vec in Hxs.
  apply (read_vec_nat_Ok_any (fun _ => True)) in Hxs as [Hl _]; [|auto].
  split; [apply Z.eqb_eq, Hv | exact Hl].
Qed.

Lemma read_model_ex_info_Ok (s s' : R) x :
  read_model_ex_info s = Ok x s' -> ModelExInfo.sub_version x = 1.
Proof.
  unfold read_model_ex_info. intros Hr. apply bind_Ok in Hr as (sv & s1 & _ & Hr).
  apply bind_Ok in Hr as (u & s2 & Hv & Hr). apply ensure_Ok in Hv as [Hv _].
  apply bind_Ok in Hr as (me & s3 & _ & Hr). ok_inv Hr. cbn. apply Z.eqb_eq, Hv.
Qed.

(** The parts a decoded model is built from, each read by its reader. *)
Lemma read_model_Ok_parts (s s' : R) m :
  read_model s = Ok m s' ->
  (exists s0 s1, read_header s0 = Ok (Model.header m) s1) /\
  (exists s0 s1, read_vertices s0 = Ok (Model.vertices m) s1) /\
  (exists s0 s1, read_triangles s0 = Ok (Model.triangles m) s1) /\
  (exists s0 s1, read_groups s0 = Ok (Model.groups m) s1) /\
  (exists s0 s1, read_materials s0 = Ok (Model.materials m) s1) /\
  (exists s0 s1, read_joints s0 = Ok (Model.joints m) s1) /\
  (exists s0 s1, read_comments s0 = Ok (Model.comments m) s1) /\
  (exists s0 s1, read_vertex_ex_info (Z.of_nat (length (Model.vertices m))) s0
                   = Ok (Model.vertex_ex_info m) s1) /\
  (exists s0 s1, read_joint_ex_info (Z.of_nat (length (Model.joints m))) s0
                   = Ok (Model.joint_ex_info m) s1) /\
  (exists s0 s1, read_model_ex_info s0 = Ok (Model.model_ex_info m) s1).
Proof.
  unfold read_model. intros Hr.
  apply bind_Ok in Hr as (hd & s1 & H1 & Hr). apply bind_Ok in Hr as (vs & s2 & H2 & Hr).
  apply bind_Ok in Hr as (ts & s3 & H3 & Hr). apply bind_Ok in Hr as (gs & s4 & H4 & Hr).
  apply bind_Ok in Hr as (ms & s5 & H5 & Hr). apply bind_Ok in Hr as (kd & s6 & H6 & Hr).
  apply bind_Ok in Hr as (js & s7 & H7 & Hr). apply bind_Ok in Hr as (cs & s8 & H8 & Hr).
  apply bind_Ok in Hr as (ve & s9 & H9 & Hr). apply bind_Ok in Hr as (je & s10 & H10 & Hr).
  apply bind_Ok in Hr as (me & s11 & H11 & Hr). ok_inv Hr. cbn.
  repeat split; eauto.
Qed.

End Decoded.

(** ** Names and comment texts *)

Lemma convert_string_Ok (b s : list byte) :
  convert_string b = inl s ->
  name_ok s /\ exists r, b = s ++ r /\ (r = [] \/ exists r', r = x00 :: r').
Proof.
  unfold convert_string, from_utf8, name_ok.
  destruct (memchr x00 b) as [i|] eqn:E.
  - apply memchr_Some in E as (Hi & Hn & Hnth).
    destruct (utf8_valid (firstn i b)) eqn:V; intros Hs; inversion Hs; subst; clear Hs.
    apply nth_error_split in Hnth as (l1 & l2 & -> & Hl1).
    rewrite <- Hl1, firstn_app, Nat.sub_diag, firstn_O, app_nil_r, firstn_all in *.
    split; [auto|]. exists (x00 :: l2). split; [reflexivity|]. right. eauto.
  - apply memchr_None in E.
    destruct (utf8_valid b) eqn:V; intros Hs; inversion Hs; subst; clear Hs.
    split; [auto|]. exists []. rewrite app_nil_r. auto.
Qed.

Section Strings.
Context {R : Type} `{Read R}.

Lemma lift_convert_string (b : list byte) (s s' : R) x :
  lift (convert_string b) s = Ok x s' -> name_ok x.
Proof. intros Hl. apply lift_Ok in Hl as [Hl _]. apply convert_string_Ok in Hl. tauto. Qed.

Lemma read_group_names (s s' : R) g : read_group s = Ok g s' -> name_ok (Group.name g).
Proof.
  unfold read_group. intros Hr. apply bind_Ok in Hr as (p & s1 & _ & Hr).
  apply bind_Ok in Hr as (fl & s2 & _ & Hr). apply bind_Ok in Hr as (nm & s3 & Hn & Hr).
  apply bind_Ok in Hr as (ti & s4 & _ & Hr). apply bind_Ok in Hr as (sfx & s5 & _ & Hr).
  ok_inv Hr. eapply lift_convert_string; eauto.
Qed.

Lemma read_material_names (s s' : R) m :
  read_material s = Ok m s' ->
  name_ok (Material.name m) /\ name_ok (Material.texture m) /\ name_ok (Material.alphamap m).
Proof.
  unfold read_material. intros Hr. apply bind_Ok in Hr as (p & s1 & _ & Hr).
  apply bind_Ok in Hr as (nm & s2 & Hn & Hr). apply bind_Ok in Hr as (tx & s3 & Ht & Hr).
  apply bind_Ok in Hr as (am & s4 & Ha & Hr). ok_inv Hr. cbn.
  repeat split; eapply lift_convert_string; eauto.
Qed.

Lemma read_joint_names (s s' : R) j :
  read_joint s = Ok j s' -> name_ok (Joint.name j) /\ name_ok (Joint.parent_name j).
Proof.
  unfold read_joint. intros Hr. apply bind_Ok in Hr as (p & s1 & _ & Hr).
  apply bind_Ok in Hr as (fl & s2 & _ & Hr). apply bind_Ok in Hr as (nm & s3 & Hn & Hr).
  apply bind_Ok in Hr as (pn & s4 & Hp & Hr).
  apply bind_Ok in Hr as (kr & s5 & _ & Hr). apply bind_Ok in Hr as (kt & s6 & _ & Hr).
  ok_inv Hr. cbn. split; eapply lift_convert_string; eauto.
Qed.

Lemma read_comment_utf8 (s s' : R) c :
  read_comment s = Ok c s' -> utf8_valid (Comment.comment c) = true.
Proof.
  unfold read_comment, read_string. intros Hr. apply bind_Ok in Hr as (p & s1 & _ & Hr).
  apply bind_Ok in Hr as (txt & s2 & Ht & Hr). ok_inv Hr. cbn.
  apply bind_Ok in Ht as (bs & s3 & _ & Ht). apply lift_Ok in Ht as [Ht _].
  unfold from_utf8 in Ht. destruct (utf8_valid bs) eqn:V; inversion Ht; subst; auto.
Qed.

Lemma read_comments_utf8 (s s' : R) c :
  read_comments s = Ok c s' ->
  Forall (fun x => utf8_valid (Comment.comment x) = true)
    (Comments.group_comments c ++ Comments.material_comments c ++
     Comments.joint_comments c) /\
  (forall x, Comments.model_comment c = Some x -> utf8_valid (Comment.comment x) = true).
Proof.
  unfold read_comments. intros Hr.
  apply bind_Ok in Hr as (v & s1 & _ & Hr). apply bind_Ok in Hr as (u & s2 & _ & Hr).
  apply bind_Ok in Hr as (n1 & s3 & _ & Hr). apply bind_Ok in Hr as (gc & s4 & Hg & Hr).
  apply bind_Ok in Hr as (n2 & s5 & _ & Hr). apply bind_Ok in Hr as (mc & s6 & Hm & Hr).
  apply bind_Ok in Hr as (n3 & s7 & _ & Hr). apply bind_Ok in Hr as (jc & s8 & Hj & Hr).
  apply bind_Ok in Hr as (n4 & s9 & _ & Hr). apply bind_Ok in Hr as (oc & s10 & Ho & Hr).
  ok_inv Hr. cbn. unfold read_vec in Hg, Hm, Hj.
  apply (read_vec_nat_Ok_any (fun x => utf8_valid (Comment.comment x) = true)) in Hg
    as [_ Hg]; [|intros; eapply read_comment_utf8; eauto].
  apply (read_vec_nat_Ok_any (fun x => utf8_valid (Comment.comment x) = true)) in Hm
    as [_ Hm]; [|intros; eapply read_comment_utf8; eauto].
  apply (read_vec_nat_Ok_any (fun x => utf8_valid (Comment.comment x) = true)) in Hj
    as [_ Hj]; [|intros; eapply read_comment_utf8; eauto].
  split; [repeat (apply Forall_app; split); assumption|].
  unfold read_model_comment in Ho. intros x Hx.
  destruct (_ =? 0); [ok_inv Ho; discriminate|].
  destruct (_ =? 1); [|discriminate].
  apply bind_Ok in Ho as (c & s11 & Hc & Ho). ok_inv Ho.
  match goal with E : Some _ = Some _ |- _ => inversion E; subst end.
  eapply read_comment_utf8; eauto.
Qed.

End Strings.

(** ** The stream backend's buffer *)

Lemma reserve_bounded (cap len c : usize) :
  0 <= cap <= isize_MAX -> IoReader.reserve cap len = Some c -> 0 <= c <= isize_MAX.
Proof.
  unfold IoReader.reserve. intros Hc Hr.
  destruct (Z.leb_spec len cap); [inversion Hr; subst; lia|].
  destruct (Z.gtb_spec (Z.max (Z.max (2 * cap) len) 8) isize_MAX); inversion Hr; subst.
  split; [lia | assumption].
Qed.

Lemma reserve_overflow (cap len : usize) :
  cap <= isize_MAX < len -> IoReader.reserve cap len = None.
Proof.
  unfold IoReader.reserve. intros Hc.
  destruct (Z.leb_spec len cap); [lia|].
  destruct (Z.gtb_spec (Z.max (Z.max (2 * cap) len) 8) isize_MAX); [reflexivity | lia].
Qed.

Lemma comment_length_range (b : list byte) :
  - 2 ^ 31 <= De.CommentPrefix.comment_length (De.CommentPrefix.of_bytes b) < 2 ^ 31.
Proof.
  unfold De.CommentPrefix.of_bytes, take_i32, take_s. cbn [fst snd].
  apply (signed_le_firstn_range 4); lia.
Qed.


(** ** The slice backend reads a prefix of its input *)

Lemma exact_ret {A} (x : A) : exact (ret x).
Proof.
  intros l. cbn. exists []. split; [reflexivity|]. split; [reflexivity|].
  intros q u Hq Hu. apply app_eq_nil in Hq as [_ ->]. contradiction.
Qed.

Lemma exact_fail {A} e : exact (A := A) (fail e).
Proof. intros l. cbn. destruct e; auto. Qed.

Lemma exact_lift {A} (r : A + Error) : exact (lift r).
Proof. destruct r; [apply exact_ret | apply exact_fail]. Qed.

Lemma exact_ensure c msg : exact (ensure c msg).
Proof. destruct c; [apply exact_ret | apply exact_fail]. Qed.


Lemma app_split {T} (q u p1 p2 : list T) :
  q ++ u = p1 ++ p2 ->
  (exists w, q = p1 ++ w /\ p2 = w ++ u) \/ (exists v, p1 = q ++ v /\ v <> []).
Proof.
  intros H. apply app_eq_app in H as (w & [[Hq Hp] | [Hp Hu]]).
  - left. eauto.
  - destruct w as [|a w].
    + left. exists []. subst. rewrite !app_nil_r. auto.
    + right. exists (a :: w). split; [exact Hp | discriminate].
Qed.

Lemma exact_bind {A B} (m : M SliceReader.SliceReader A) (k : A -> M _ B) :
  exact m -> (forall x, exact (k x)) -> exact (bind m k).
Proof.
  intros Hm Hk l. pose proof (Hm l) as H1. unfold bind at 1.
  destruct (m (SliceReader.new l)) as [x1 [r1]| e1|p1] eqn:E1; [|destruct e1|contradiction].
  - destruct H1 as (p1 & -> & F1 & T1). cbn [SliceReader.slice].
    pose proof (Hk x1 r1) as H2.
    destruct (k x1 (SliceReader.new r1)) as [x [r]| e|pp] eqn:E2; [|destruct e|contradiction].
    + destruct H2 as (p2 & -> & F2 & T2). cbn [SliceReader.slice] in *.
      exists (p1 ++ p2). split; [apply app_assoc|]. split.
      * intros r'. unfold bind. rewrite <- app_assoc, F1. apply F2.
      * intros q u Hq Hu. unfold bind.
        destruct (app_split q u p1 p2 Hq) as [(w & -> & ->) | (v & -> & Hv)].
        -- rewrite <- (app_nil_r (p1 ++ w)), <- app_assoc, F1, app_nil_r.
           apply (T2 w u eq_refl Hu).
        -- rewrite (T1 q v eq_refl Hv). reflexivity.
    + exact I.
    + intros t. unfold bind. rewrite <- app_assoc, F1. apply H2.
    + intros t. unfold bind. rewrite <- app_assoc, F1. apply H2.
  - exact I.
  - intros t. unfold bind. rewrite H1. reflexivity.
  - intros t. unfold bind. rewrite H1. reflexivity.
Qed.

Lemma exact_read_bytes (n : usize) : exact (read_bytes n).
Proof.
  intros l. rewrite read_bytes_slice.
  destruct (Z.gtb_spec n (Z.of_nat (length l))) as [Hg|Hle]; [exact I|].
  cbn [SliceReader.slice]. exists (firstn (Z.to_nat n) l).
  assert (Hp : length (firstn (Z.to_nat n) l) = Z.to_nat n) by (rewrite length_firstn; lia).
  split; [symmetry; apply firstn_skipn|]. split.
  - intros r. rewrite read_bytes_slice, length_app, Hp.
    destruct (Z.gtb_spec n (Z.of_nat (Z.to_nat n + length r))); [lia|].
    rewrite firstn_app, skipn_app, Hp, Nat.sub_diag, firstn_O, skipn_O, app_nil_r.
    rewrite firstn_all2 by lia. rewrite skipn_all2 by lia. reflexivity.
  - intros q u Hq Hu. rewrite read_bytes_slice.
    assert (Hl : (length q + length u)%nat = Z.to_nat n) by (rewrite <- length_app, Hq; exact Hp).
    destruct u; [contradiction|]. cbn in Hl.
    destruct (Z.gtb_spec n (Z.of_nat (length q))); [reflexivity|lia].
Qed.

Lemma exact_read_type {T} n (f : list byte -> T) : exact (read_type n f).
Proof. unfold read_type. apply exact_bind; [apply exact_read_bytes | intros; apply exact_ret]. Qed.

Lemma exact_read_vec_nat {T} (f : M _ T) k : exact f -> exact (read_vec_nat k f).
Proof.
  intros Hf. induction k as [|k IH]; cbn [read_vec_nat]; [apply exact_ret|].
  apply exact_bind; [exact Hf|]. intros x. apply exact_bind; [exact IH|].
  intros xs. apply exact_ret.
Qed.

Lemma exact_read_vec {T} (f : M _ T) len : exact f -> exact (read_vec len f).
Proof. apply exact_read_vec_nat. Qed.

Create HintDb exact_db.
#[local] Hint Resolve exact_ret exact_fail exact_lift exact_ensure exact_read_bytes
  exact_read_type exact_read_vec : exact_db.

Ltac exact_go :=
  repeat match goal with
  | |- exact (bind _ _) => apply exact_bind; [solve [eauto with exact_db] | intros ?]
  | |- exact (if ?c then _ else _) => destruct c
  | |- _ => solve [eauto with exact_db]
  end.

Lemma exact_read_u16 : exact read_u16.
Proof. apply exact_read_type. Qed.
Lemma exact_read_u32 : exact read_u32.
Proof. apply exact_read_type. Qed.
Lemma exact_read_i32 : exact read_i32.
Proof. apply exact_read_type. Qed.
#[local] Hint Resolve exact_read_u16 exact_read_u32 exact_read_i32 : exact_db.

Lemma exact_read_header : exact read_header.
Proof. unfold read_header. exact_go. Qed.
Lemma exact_read_vertex : exact read_vertex.
Proof. unfold read_vertex. exact_go. Qed.
Lemma exact_read_triangle : exact read_triangle.
Proof. unfold read_triangle. exact_go. Qed.
Lemma exact_read_group : exact read_group.
Proof. unfold read_group. exact_go. Qed.
Lemma exact_read_material : exact read_material.
Proof. unfold read_material. exact_go. Qed.
Lemma exact_read_key_frame_data : exact read_key_frame_data.
Proof. unfold read_key_frame_data. exact_go. Qed.
Lemma exact_read_key_frame_rot : exact read_key_frame_rot.
Proof. unfold read_key_frame_rot. exact_go. Qed.
Lemma exact_read_key_frame_pos : exact read_key_frame_pos.
Proof. unfold read_key_frame_pos. exact_go. Qed.
Lemma exact_read_string len : exact (read_string len).
Proof. unfold read_string. exact_go. Qed.
#[local] Hint Resolve exact_read_header exact_read_vertex exact_read_triangle
  exact_read_group exact_read_material exact_read_key_frame_data
  exact_read_key_frame_rot exact_read_key_frame_pos exact_read_string : exact_db.

Lemma exact_read_joint : exact read_joint.
Proof. unfold read_joint. exact_go. Qed.
Lemma exact_read_comment : exact read_comment.
Proof. unfold read_comment. exact_go. Qed.
#[local] Hint Resolve exact_read_joint exact_read_comment : exact_db.
Lemma exact_read_model_comment len : exact (read_model_comment len).
Proof. unfold read_model_comment. exact_go. Qed.
#[local] Hint Resolve exact_read_model_comment : exact_db.
Lemma exact_read_comments : exact read_comments.
Proof. unfold read_comments. exact_go. Qed.
Lemma exact_read_vertex_ex_1 : exact read_vertex_ex_1.
Proof. unfold read_vertex_ex_1. exact_go. Qed.
Lemma exact_read_vertex_ex_2 : exact read_vertex_ex_2.
Proof. unfold read_vertex_ex_2. exact_go. Qed.
Lemma exact_read_vertex_ex_3 : exact read_vertex_ex_3.
Proof. unfold read_vertex_ex_3. exact_go. Qed.
Lemma exact_read_joint_ex : exact read_joint_ex.
Proof. unfold read_joint_ex. exact_go. Qed.
Lemma exact_read_model_ex : exact read_model_ex.
Proof. unfold read_model_ex. exact_go. Qed.
#[local] Hint Resolve exact_read_comments exact_read_vertex_ex_1 exact_read_vertex_ex_2
  exact_read_vertex_ex_3 exact_read_joint_ex exact_read_model_ex : exact_db.
Lemma exact_read_vertex_ex_info len : exact (read_vertex_ex_info len).
Proof. unfold read_vertex_ex_info. exact_go. Qed.
Lemma exact_read_joint_ex_info len : exact (read_joint_ex_info len).
Proof. unfold read_joint_ex_info. exact_go. Qed.
Lemma exact_read_model_ex_info : exact read_model_ex_info.
Proof. unfold read_model_ex_info. exact_go. Qed.
Lemma exact_read_vertices : exact read_vertices.
Proof. unfold read_vertices. exact_go. Qed.
Lemma exact_read_triangles : exact read_triangles.
Proof. unfold read_triangles. exact_go. Qed.
Lemma exact_read_groups : exact read_groups.
Proof. unfold read_groups. exact_go. Qed.
Lemma exact_read_materials : exact read_materials.
Proof. unfold read_materials. exact_go. Qed.
Lemma exact_read_joints : exact read_joints.
Proof. unfold read_joints. exact_go. Qed.
#[local] Hint Resolve exact_read_vertex_ex_info exact_read_joint_ex_info
  exact_read_model_ex_info exact_read_vertices exact_read_triangles exact_read_groups
  exact_read_materials exact_read_joints : exact_db.
Lemma exact_read_model : exact read_model.
Proof. unfold read_model. exact_go. Qed.


(** * Properties of the whole decoder *)

Module Extras.

(** The counts of a decoded model: every list section, the triangle indices
    of each group and the key frames of each joint hold fewer than [2^16]
    entries, as their counts are read as [u16]; on either backend. *)
Theorem decoded_counts {R} `{Read R} (s s' : R) m :
  read_model s = Ok m s' ->
  Z.of_nat (length (Model.vertices m)) < 2 ^ 16 /\
  Z.of_nat (length (Model.triangles m)) < 2 ^ 16 /\
  Z.of_nat (length (Model.groups m)) < 2 ^ 16 /\
  Z.of_nat (length (Model.materials m)) < 2 ^ 16 /\
  Z.of_nat (length (Model.joints m)) < 2 ^ 16 /\
  Forall (fun g => Z.of_nat (length (Group.triangle_indices g)) < 2 ^ 16) (Model.groups m) /\
  Forall (fun j => Z.of_nat (length (Joint.key_frames_rot j)) < 2 ^ 16 /\
                   Z.of_nat (length (Joint.key_frames_trans j)) < 2 ^ 16) (Model.joints m).
Proof.
  intros Hm. apply read_model_Ok_parts in Hm
    as (_ & (? & ? & Hv) & (? & ? & Ht) & (? & ? & Hg) & (? & ? & Hma) & (? & ? & Hj) & _).
  unfold read_vertices in Hv. unfold read_triangles in Ht. unfold read_groups in Hg.
  unfold read_materials in Hma. unfold read_joints in Hj.
  apply (read_list_Ok_any (fun _ => True)) in Hv as [Hv _]; [|auto].
  apply (read_list_Ok_any (fun _ => True)) in Ht as [Ht _]; [|auto].
  apply (read_list_Ok_any (fun _ => True)) in Hma as [Hma _]; [|auto].
  apply (read_list_Ok_any (fun g => Z.of_nat (length (Group.triangle_indices g)) < 2 ^ 16))
    in Hg as [Hg HG]; [|intros; eapply read_group_Ok; eauto].
  apply (read_list_Ok_any (fun j => Z.of_nat (length (Joint.key_frames_rot j)) < 2 ^ 16 /\
                   Z.of_nat (length (Joint.key_frames_trans j)) < 2 ^ 16))
    in Hj as [Hj HJ]; [|intros; eapply read_joint_Ok; eauto].
  auto 10.
Qed.

Lemma decoded_counts_witness :
  read_model (SliceReader.new (Encode.model rich_model)) = Ok rich_model (SliceReader.new []) /\
  Z.of_nat (length (Model.vertices rich_model)) < 2 ^ 16.
Proof.
  assert (H : read_model (SliceReader.new (Encode.model rich_model)) = Ok rich_model (SliceReader.new []))
    by (vm_compute; reflexivity).
  split; [exact H|]. exact (proj1 (decoded_counts _ _ _ H)).
Defined.

(** The flags of every decoded vertex, triangle, group and joint lie within
    the mask allowed for that entity. *)
Theorem decoded_flags_allowed {R} `{Read R} (s s' : R) m :
  read_model s = Ok m s' ->
  Forall (fun v => Flags.contains Vertex.ALLOWED_FLAGS (Vertex.flags v) = true)
    (Model.vertices m) /\
  Forall (fun t => Flags.contains Triangle.ALLOWED_FLAGS (Triangle.flags t) = true)
    (Model.triangles m) /\
  Forall (fun g => Flags.contains Group.ALLOWED_FLAGS (Group.flags g) = true)
    (Model.groups m) /\
  Forall (fun j => Flags.contains Joint.ALLOWED_FLAGS (Joint.flags j) = true)
    (Model.joints m).
Proof.
  intros Hm. apply read_model_Ok_parts in Hm
    as (_ & (? & ? & Hv) & (? & ? & Ht) & (? & ? & Hg) & _ & (? & ? & Hj) & _).
  unfold read_vertices in Hv. unfold read_triangles in Ht. unfold read_groups in Hg.
  unfold read_joints in Hj.
  apply (read_list_Ok_any (fun v => Flags.contains Vertex.ALLOWED_FLAGS (Vertex.flags v) = true))
    in Hv as [_ Hv]; [|intros; eapply read_vertex_Ok; eauto].
  apply (read_list_Ok_any (fun t => Flags.contains Triangle.ALLOWED_FLAGS (Triangle.flags t) = true))
    in Ht as [_ Ht]; [|intros; eapply read_triangle_Ok; eauto].
  apply (read_list_Ok_any (fun g => Flags.contains Group.ALLOWED_FLAGS (Group.flags g) = true))
    in Hg as [_ Hg]; [|intros; eapply read_group_Ok; eauto].
  apply (read_list_Ok_any (fun j => Flags.contains Joint.ALLOWED_FLAGS (Joint.flags j) = true))
    in Hj as [_ Hj]; [|intros; eapply read_joint_Ok; eauto].
  auto.
Qed.

Lemma decoded_flags_allowed_witness :
  read_model (SliceReader.new (Encode.model rich_model)) = Ok rich_model (SliceReader.new []) /\
  Forall (fun v => Flags.contains Vertex.ALLOWED_FLAGS (Vertex.flags v) = true)
    (Model.vertices rich_model).
Proof.
  assert (H : read_model (SliceReader.new (Encode.model rich_model)) = Ok rich_model (SliceReader.new []))
    by (vm_compute; reflexivity).
  split; [exact H|]. exact (proj1 (decoded_flags_allowed _ _ _ H)).
Defined.

(** A decoded model has header version 4, sub-version 1 for its comments,
    joint ex-info and model ex-info, one vertex ex-info record per vertex
    and one joint ex-info record per joint. *)
Theorem decoded_sections {R} `{Read R} (s s' : R) m :
  read_model s = Ok m s' ->
  Header.version (Model.header m) = 4 /\
  Comments.sub_version (Model.comments m) = 1 /\
  vertex_ex_count (Model.vertex_ex_info m) = length (Model.vertices m) /\
  JointExInfo.sub_version (Model.joint_ex_info m) = 1 /\
  length (JointExInfo.joint_ex (Model.joint_ex_info m)) = length (Model.joints m) /\
  ModelExInfo.sub_version (Model.model_ex_info m) = 1.
Proof.
  intros Hm. apply read_model_Ok_parts in Hm
    as ((? & ? & Hh) & _ & _ & _ & _ & _ & (? & ? & Hc) & (? & ? & Hve) & (? & ? & Hje)
        & (? & ? & Hme)).
  apply read_header_Ok in Hh. apply read_comments_Ok in Hc.
  apply read_vertex_ex_info_Ok in Hve. rewrite Nat2Z.id in Hve.
  apply read_joint_ex_info_Ok in Hje as [Hje1 Hje2]. rewrite Nat2Z.id in Hje2.
  apply read_model_ex_info_Ok in Hme. auto 7.
Qed.

Lemma decoded_sections_witness :
  read_model (SliceReader.new (Encode.model rich_model)) = Ok rich_model (SliceReader.new []) /\
  Header.version (Model.header rich_model) = 4.
Proof.
  assert (H : read_model (SliceReader.new (Encode.model rich_model)) = Ok rich_model (SliceReader.new []))
    by (vm_compute; reflexivity).
  split; [exact H|]. exact (proj1 (decoded_sections _ _ _ H)).
Defined.

(** The names of every decoded group, material (with its texture and alpha
    map paths) and joint (with its parent's name) are valid UTF-8 without a
    zero byte, and every decoded comment text is valid UTF-8. *)
Theorem decoded_strings {R} `{Read R} (s s' : R) m :
  read_model s = Ok m s' ->
  Forall (fun g => name_ok (Group.name g)) (Model.groups m) /\
  Forall (fun x => name_ok (Material.name x) /\ name_ok (Material.texture x) /\
                   name_ok (Material.alphamap x)) (Model.materials m) /\
  Forall (fun j => name_ok (Joint.name j) /\ name_ok (Joint.parent_name j)) (Model.joints m) /\
  Forall (fun x => utf8_valid (Comment.comment x) = true)
    (Comments.group_comments (Model.comments m) ++ Comments.material_comments (Model.comments m) ++
     Comments.joint_comments (Model.comments m)) /\
  (forall x, Comments.model_comment (Model.comments m) = Some x ->
   utf8_valid (Comment.comment x) = true).
Proof.
  intros Hm. apply read_model_Ok_parts in Hm
    as (_ & _ & _ & (? & ? & Hg) & (? & ? & Hx) & (? & ? & Hj) & (? & ? & Hc) & _).
  unfold read_groups in Hg. unfold read_materials in Hx. unfold read_joints in Hj.
  apply (read_list_Ok_any (fun g => name_ok (Group.name g))) in Hg as [_ Hg];
    [|intros; eapply read_group_names; eauto].
  apply (read_list_Ok_any (fun x => name_ok (Material.name x) /\ name_ok (Material.texture x) /\
                   name_ok (Material.alphamap x))) in Hx as [_ Hx];
    [|intros; eapply read_material_names; eauto].
  apply (read_list_Ok_any (fun j => name_ok (Joint.name j) /\ name_ok (Joint.parent_name j)))
    in Hj as [_ Hj]; [|intros; eapply read_joint_names; eauto].
  apply read_comments_utf8 in Hc as [Hc Ho]. auto.
Qed.

Lemma decoded_strings_witness :
  read_model (SliceReader.new (Encode.model rich_model)) = Ok rich_model (SliceReader.new []) /\
  Forall (fun g => name_ok (Group.name g)) (Model.groups rich_model).
Proof.
  assert (H : read_model (SliceReader.new (Encode.model rich_model)) = Ok rich_model (SliceReader.new []))
    by (vm_compute; reflexivity).
  split; [exact H|]. exact (proj1 (decoded_strings _ _ _ H)).
Defined.

(** A comment whose byte length field is negative: the stream backend asks
    its buffer for that length cast to [usize], above [isize::MAX], and
    panics with "capacity overflow"; the slice backend fails with
    [UnexpectedEof]. *)
Theorem negative_comment_length (p l : list byte) (cap : usize) :
  length p = 8%nat -> 0 <= cap <= isize_MAX ->
  De.CommentPrefix.comment_length (De.CommentPrefix.of_bytes p) < 0 ->
  read_comment (IoReader.mk (p ++ l) cap) = Panic "capacity overflow" /\
  (Z.of_nat (length (p ++ l)) <= isize_MAX ->
   read_comment (SliceReader.new (p ++ l)) = Err (Io UnexpectedEof)).
Proof.
  intros Hp Hc Hn. pose proof (comment_length_range p) as Hr.
  assert (Hu : isize_MAX < usize_of_i32 (De.CommentPrefix.comment_length (De.CommentPrefix.of_bytes p)) < 2 ^ 64).
  { unfold usize_of_i32, isize_MAX.
    set (x := De.CommentPrefix.comment_length (De.CommentPrefix.of_bytes p)) in *.
    rewrite <- (Z.mod_unique x (2 ^ 64) (-1) (x + 2 ^ 64)); lia. }
  split.
  - unfold read_comment, read_type, read_string.
    unfold bind at 1. unfold bind at 1. unfold read_bytes at 1.
    change (read (Z.of_nat De.CommentPrefix.size) (IoReader.mk (p ++ l) cap))
      with (IoReader.read 8 (IoReader.mk (p ++ l) cap)).
    unfold IoReader.read at 1. cbn [IoReader.buf_capacity IoReader.rdr].
    destruct (IoReader.reserve cap 8) as [c|] eqn:E.
    2:{ exfalso. unfold IoReader.reserve in E. destruct (Z.leb_spec 8 cap); [discriminate|].
        destruct (Z.max (Z.max (2 * cap) 8) 8 >? isize_MAX) eqn:G; [|discriminate].
        apply Z.gtb_lt in G. unfold isize_MAX in *. lia. }
    apply reserve_bounded in E; [|exact Hc].
    unfold IoReader.read_exact. rewrite length_app, Hp.
    destruct (Z.gtb_spec 8 (Z.of_nat (8 + length l))); [lia|].
    change (Z.to_nat 8) with 8%nat. rewrite firstn_app, Hp, Nat.sub_diag, firstn_O,
      app_nil_r, skipn_app, Hp, Nat.sub_diag, skipn_O, skipn_all2, app_nil_l by lia.
    rewrite <- Hp at 1. rewrite firstn_all.
    unfold ret at 1. unfold bind. unfold read_bytes.
    change read with IoReader.read. unfold IoReader.read. cbn [IoReader.buf_capacity].
    rewrite reserve_overflow by lia. reflexivity.
  - intros Hl. unfold read_comment. erewrite bind_step.
    2:{ rewrite <- (app_nil_r (p ++ l)). rewrite <- app_assoc.
        apply read_type_slice_app. exact Hp. }
    apply bind_Err. unfold read_string. apply bind_Err.
    rewrite read_bytes_slice. match goal with |- context [?a >? ?b] => destruct (Z.gtb_spec a b); [reflexivity|] end.
    rewrite length_app in Hl. rewrite app_nil_r in *. lia.
Qed.

Lemma negative_comment_length_witness :
  length (enc_u 4 0 ++ enc_u 4 (-1)) = 8%nat /\
  De.CommentPrefix.comment_length (De.CommentPrefix.of_bytes (enc_u 4 0 ++ enc_u 4 (-1))) < 0 /\
  (read_comment (IoReader.mk ((enc_u 4 0 ++ enc_u 4 (-1)) ++ [x41]) 0) = Panic "capacity overflow" /\
   (Z.of_nat (length ((enc_u 4 0 ++ enc_u 4 (-1)) ++ [x41])) <= isize_MAX ->
    read_comment (SliceReader.new ((enc_u 4 0 ++ enc_u 4 (-1)) ++ [x41])) = Err (Io UnexpectedEof))).
Proof.
  split; [reflexivity|]. split; [vm_compute; reflexivity|].
  apply (negative_comment_length (enc_u 4 0 ++ enc_u 4 (-1)) [x41] 0);
    [reflexivity | unfold isize_MAX; lia | vm_compute; reflexivity].
Defined.

(** An input shorter than the 14-byte header fails with [UnexpectedEof] on
    both backends. *)
Theorem short_input_eof (l : list byte) :
  (length l < De.Header.size)%nat ->
  from_bytes l = Err (Io UnexpectedEof) /\ from_reader l = Err (Io UnexpectedEof).
Proof.
  intros Hl. unfold from_bytes, from_reader, run.
  assert (Hh : forall {R} `{Read R} (s : R),
            read_bytes (Z.of_nat De.Header.size) s = Err (Io UnexpectedEof) ->
            read_model s = Err (Io UnexpectedEof)).
  { intros R0 HR s0 Hs. unfold read_model. apply bind_Err. unfold read_header.
    apply bind_Err. unfold read_type. apply bind_Err. exact Hs. }
  split.
  - rewrite Hh; [reflexivity|]. rewrite read_bytes_slice.
    destruct (Z.gtb_spec (Z.of_nat De.Header.size) (Z.of_nat (length l))); [reflexivity|].
    lia.
  - rewrite Hh; [reflexivity|]. unfold read_bytes.
    change read with IoReader.read. unfold IoReader.read, IoReader.new.
    cbn [IoReader.buf_capacity IoReader.rdr].
    replace (IoReader.reserve 0 (Z.of_nat De.Header.size)) with (Some 14) by reflexivity.
    unfold IoReader.read_exact.
    destruct (Z.gtb_spec (Z.of_nat De.Header.size) (Z.of_nat (length l))); [reflexivity|].
    lia.
Qed.

Lemma short_input_eof_witness :
  from_bytes [x4d; x53] = Err (Io UnexpectedEof) /\ from_reader [x4d; x53] = Err (Io UnexpectedEof).
Proof. apply (short_input_eof [x4d; x53]). vm_compute. repeat constructor. Defined.

(** On the slice backend a successful decode consumed a prefix [p] of the
    input: [p] followed by any bytes decodes to the same model, and every
    proper prefix of [p] fails with [UnexpectedEof]. *)
Theorem from_bytes_consumed (l : list byte) (m : Model.t) :
  from_bytes l = Ok m tt ->
  exists p r, l = p ++ r /\
  (forall r', from_bytes (p ++ r') = Ok m tt) /\
  (forall q u, q ++ u = p -> u <> [] -> from_bytes q = Err (Io UnexpectedEof)).
Proof.
  unfold from_bytes, run. pose proof (exact_read_model l) as H.
  destruct (read_model (SliceReader.new l)) as [x [r]| |]; intros E; inversion E; subst.
  destruct H as (p & -> & F & T). exists p, r. split; [reflexivity|]. split.
  - intros r'. rewrite F. reflexivity.
  - intros q u Hq Hu. rewrite (T q u Hq Hu). reflexivity.
Qed.

Lemma from_bytes_consumed_witness :
  from_bytes (Encode.model rich_model) = Ok rich_model tt /\
  exists p r, Encode.model rich_model = p ++ r /\
  from_bytes (p ++ [x00]) = Ok rich_model tt.
Proof.
  assert (H : from_bytes (Encode.model rich_model) = Ok rich_model tt)
    by (vm_compute; reflexivity).
  split; [exact H|].
  destruct (from_bytes_consumed _ _ H) as (p & r & E & F & _).
  exists p, r. split; [exact E | apply F].
Defined.

(** On the slice backend a decode that fails with a format error or a UTF-8
    error fails the same way when bytes are appended to its input. *)
Theorem from_bytes_errors_append (l t : list byte) :
  (forall msg, from_bytes l = Err (Invalid msg) -> from_bytes (l ++ t) = Err (Invalid msg)) /\
  (from_bytes l = Err Utf8 -> from_bytes (l ++ t) = Err Utf8).
Proof.
  unfold from_bytes, run. pose proof (exact_read_model l) as H.
  destruct (read_model (SliceReader.new l)) as [x [r]| e|]; [| |contradiction].
  - split; intros; discriminate.
  - destruct e; [split; intros; discriminate| |]; rewrite H; auto.
Qed.


End Extras.
